(** * The amortization engine of the Streamlit loan calculator

    Source: [src/Week3_assesment/streamlit-loan-calculator/app.py], the
    helpers [periods_per_year], [pmt] and [amortization_schedule].

    Python's [float] is IEEE 754 binary64, which is what Rocq's primitive
    [float] is, so the arithmetic of the source ([+], [-], [*], [/], [<],
    [abs]) is embedded operation for operation.  Three pieces of the Python
    runtime are written out: exceptions (a small error monad), the builtin
    [round(x, 2)] and the [date + timedelta] of [datetime].  The float power
    [**] is computed by the platform's C library; the engine takes it as a
    parameter, and a correctly rounded power is given for evaluation. *)

From Stdlib Require Import ZArith List String Bool Lia Floats.
Import ListNotations.

Set Warnings "-inexact-float".

Open Scope Z_scope.

#[local] Arguments Z.mul : simpl never.
#[local] Arguments Z.add : simpl never.
#[local] Arguments Z.sub : simpl never.
#[local] Arguments Z.of_nat : simpl never.

(** ** The Python runtime the engine uses *)

Module Py.

(** The exceptions the engine can raise. *)
Inductive exn : Set :=
| KeyError
| OverflowError
| ZeroDivisionError.

Inductive result (A : Type) : Type :=
| Ok (a : A)
| Raise (e : exn).

Arguments Ok {A} a.
Arguments Raise {A} e.

Definition bind {A B : Type} (c : result A) (k : A -> result B) : result B :=
  match c with
  | Ok a => k a
  | Raise e => Raise e
  end.

(** [float(z)] for an [int]: the nearest double, ties to even;
    [OverflowError] when the integer is too large. *)
Definition float_of_int (z : Z) : result float :=
  let f := SF2Prim (binary_normalize prec emax z 0 false) in
  if is_infinity f then Raise OverflowError else Ok f.

(** [x / y] on floats: Python raises where IEEE 754 returns an infinity
    or a NaN for a zero divisor. *)
Definition truediv (x y : float) : result float :=
  if (y =? 0)%float then Raise ZeroDivisionError else Ok (x / y)%float.

(** [x / k] with [x] a float and [k] an [int]: [k] is converted first. *)
Definition truediv_int (x : float) (k : Z) : result float :=
  bind (float_of_int k) (truediv x).

(** The integer nearest to [a / b] for [0 <= a] and [0 < b], ties to even. *)
Definition round_half_even_div (a b : Z) : Z :=
  let q := a / b in
  match (2 * (a mod b) ?= b) with
  | Lt => q
  | Gt => q + 1
  | Eq => if Z.even q then q else q + 1
  end.

(** The exact value [m * 2^e] in hundredths, rounded half to even. *)
Definition hundredths (m : positive) (e : Z) : Z :=
  match e with
  | Zneg p => round_half_even_div (Zpos m * 100) (2 ^ Zpos p)
  | _ => Zpos m * 100 * 2 ^ e
  end.

(** The double nearest to [num / den] ([0 <= num], [0 < den]), with sign
    [s]. *)
Definition float_of_ratio (s : bool) (num den : Z) : float :=
  match num with
  | Z0 => if s then neg_zero else zero
  | _ =>
      let '(q, e, l) := SFdiv_core_binary prec emax num 0 den 0 in
      SF2Prim (binary_round_aux prec emax s q e l)
  end.

(** [round(x, 2)]: the exact binary value of [x] is rounded to two
    decimals, half to even, and the decimal read back as the nearest
    double; a NaN, an infinity or a zero is returned as it is. *)
Definition round2 (x : float) : float :=
  match Prim2SF x with
  | S754_finite s m e => float_of_ratio s (hundredths m e) 100
  | _ => x
  end.

(** A [datetime.date] is its proleptic Gregorian ordinal:
    [date(1, 1, 1)] is 1 and [date.max] is [MAXORDINAL]. *)
Definition date : Set := Z.

Definition MAXORDINAL : Z := 3652059.

(** [d + timedelta(days=k)]. *)
Definition date_add_days (d : date) (k : Z) : result date :=
  let o := d + k in
  if (0 <? o) && (o <=? MAXORDINAL) then Ok o else Raise OverflowError.

End Py.

Import Py.

Notation "x <- c ;; k" := (bind c (fun x => k))
  (at level 61, c at next level, right associativity).

(** ** The engine *)

(** One record of the schedule: the dictionary appended at lines 92-103,
    with its ten keys in order. *)
Record row : Set := mk_row {
  Period : Z;
  Date : date;
  Payment_base : float;
  Extra_Payment : float;
  Payment_total_excl_fees : float;
  Monthly_Fee : float;
  Payment_grand_total : float;
  Interest : float;
  Principal : float;
  Balance : float
}.

(** The variables the [while] loop updates. *)
Record loop_state : Set := mk_state {
  bal : float;
  current_date : date;
  period : Z;
  records : list row
}.

(** [periods_per_year]: a dictionary lookup, [KeyError] on another key. *)
Definition periods_per_year (mode : string) : result Z :=
  if String.eqb mode "Monthly" then Ok 12
  else if String.eqb mode "Quarterly" then Ok 4
  else if String.eqb mode "Yearly" then Ok 1
  else Raise KeyError.

(** The dictionary [period_delta] of lines 68-72. *)
Definition period_delta (freq : string) : result Z :=
  if String.eqb freq "Monthly" then Ok 30
  else if String.eqb freq "Quarterly" then Ok 91
  else if String.eqb freq "Yearly" then Ok 365
  else Raise KeyError.

(** The per-period rate of line 59, [(apr / 100.0) / m]. *)
Definition rate_per_period (apr : float) (m : Z) : result float :=
  x <- truediv apr 100 ;; truediv_int x m.

Section Engine.

(** Python's [x ** k] for a float [x] and an [int] [k]. *)
Variable float_pow : float -> Z -> result float.

(** [pmt], lines 46-53. *)
Definition pmt (rate_per_period : float) (n_periods : Z) (principal : float)
  : result float :=
  if n_periods =? 0 then Ok 0%float
  else if (abs rate_per_period <? 1e-9)%float then truediv_int principal n_periods
  else
    factor <- float_pow (1 + rate_per_period)%float n_periods ;;
    truediv (principal * rate_per_period * factor)%float (factor - 1)%float.

Section Loop.

(** What the loop reads and does not change. *)
Variables (base_payment r monthly_fee extra_per_period : float).
Variables (delta n : Z).

(** The loop condition, line 75. *)
Definition loop_guard (st : loop_state) : bool :=
  (1e-6 <? bal st)%float && (period st <? 1000 * n).

(** The loop body, lines 76-103. *)
Definition loop_body (st : loop_state) : result loop_state :=
  let period := period st + 1 in
  let interest := (bal st * r)%float in
  let principal_pay := (base_payment - interest)%float in
  let total_paid_this_period := (base_payment + extra_per_period)%float in
  let principal_component := (principal_pay + extra_per_period)%float in
  let '(principal_component, total_paid_this_period) :=
    if (bal st <? principal_component)%float
    then (bal st, (interest + bal st)%float)
    else (principal_component, total_paid_this_period) in
  let bal := (bal st - principal_component)%float in
  let row_date := current_date st in
  current_date <- date_add_days row_date delta ;;
  Ok {| bal := bal;
        current_date := current_date;
        period := period;
        records := records st ++
          [ {| Period := period;
               Date := row_date;
               Payment_base := round2 base_payment;
               Extra_Payment := round2 extra_per_period;
               Payment_total_excl_fees := round2 total_paid_this_period;
               Monthly_Fee := round2 monthly_fee;
               Payment_grand_total :=
                 round2 (total_paid_this_period + monthly_fee)%float;
               Interest := round2 interest;
               Principal := round2 principal_component;
               Balance := round2 bal |} ] |}.

(** The quantities of one period as functions of the balance [b] the
    period starts with; [loop_body_spec] below shows that the body
    computes exactly these. *)
Definition interest_of (b : float) : float := (b * r)%float.

Definition principal_due (b : float) : float :=
  ((base_payment - interest_of b) + extra_per_period)%float.

(** The test of line 84. *)
Definition clamps (b : float) : bool := (b <? principal_due b)%float.

Definition principal_component_of (b : float) : float :=
  if clamps b then b else principal_due b.

Definition total_paid_of (b : float) : float :=
  if clamps b then (interest_of b + b)%float
  else (base_payment + extra_per_period)%float.

Definition next_bal (b : float) : float :=
  (b - principal_component_of b)%float.

(** The record appended in period [k], dated [d], from balance [b]. *)
Definition row_of (k : Z) (d : date) (b : float) : row :=
  {| Period := k;
     Date := d;
     Payment_base := round2 base_payment;
     Extra_Payment := round2 extra_per_period;
     Payment_total_excl_fees := round2 (total_paid_of b);
     Monthly_Fee := round2 monthly_fee;
     Payment_grand_total := round2 (total_paid_of b + monthly_fee)%float;
     Interest := round2 (interest_of b);
     Principal := round2 (principal_component_of b);
     Balance := round2 (next_bal b) |}.

(** The unrounded balance after [i] periods from [b]. *)
Fixpoint bal_after (i : nat) (b : float) : float :=
  match i with
  | O => b
  | S j => bal_after j (next_bal b)
  end.

(** The records of [j] consecutive periods from period counter [p],
    date [d] and balance [b]. *)
Fixpoint trace (j : nat) (p : Z) (d : date) (b : float) : list row :=
  match j with
  | O => []
  | S j' => row_of (p + 1) d b :: trace j' (p + 1) (d + delta) (next_bal b)
  end.

(** The [while] statement run for at most [fuel] iterations: [None] when
    the condition still holds after them. *)
Fixpoint while_loop (fuel : nat) (st : loop_state)
  : option (result loop_state) :=
  if loop_guard st then
    match fuel with
    | O => None
    | S fuel' =>
        match loop_body st with
        | Ok st' => while_loop fuel' st'
        | Raise e => Some (Raise e)
        end
    end
  else Some (Ok st).

End Loop.

(** [amortization_schedule], lines 55-106, with the loop bounded by
    [fuel]; the data frame is the list of its records.  The local
    [total_payment] of line 62 is never read and is left out. *)
Definition amortization_schedule_fuel (fuel : nat)
    (principal apr : float) (years : Z) (freq : string) (start_date : date)
    (monthly_fee extra_per_period : float)
  : option (result (list row * float * Z)) :=
  match
    (m <- periods_per_year freq ;;
     let n := years * m in
     r <- rate_per_period apr m ;;
     base_payment <- pmt r n principal ;;
     delta <- period_delta freq ;;
     Ok (n, r, base_payment, delta))
  with
  | Raise e => Some (Raise e)
  | Ok (n, r, base_payment, delta) =>
      match
        while_loop base_payment r monthly_fee extra_per_period delta n fuel
          {| bal := principal; current_date := start_date;
             period := 0; records := [] |}
      with
      | None => None
      | Some (Raise e) => Some (Raise e)
      | Some (Ok st) => Some (Ok (records st, round2 base_payment, period st))
      end
  end.

(** The iterations the safety cap allows for a term of [years] years. *)
Definition cap_fuel (years : Z) : nat := Z.to_nat (1000 * (years * 12)).

(** [amortization_schedule] itself: the loop gets the iterations the cap
    allows, which always suffice. *)
Definition amortization_schedule
    (principal apr : float) (years : Z) (freq : string) (start_date : date)
    (monthly_fee extra_per_period : float)
  : option (result (list row * float * Z)) :=
  amortization_schedule_fuel (cap_fuel years)
    principal apr years freq start_date monthly_fee extra_per_period.

End Engine.

(** ** A correctly rounded power for evaluation *)

(** [(m * 2^e) ^ k] for [k <> 0], rounded once to the nearest double. *)
Definition pow_finite (s : bool) (m : positive) (e : Z) (k : Z) : spec_float :=
  match k with
  | Zpos p => binary_round prec emax s (Pos.pow m p) (e * Zpos p)
  | Zneg p =>
      let '(q, e', l) :=
        SFdiv_core_binary prec emax 1 0 (Zpos (Pos.pow m p)) (e * Zpos p) in
      binary_round_aux prec emax s q e' l
  | Z0 => S754_nan
  end.

(** CPython's [float_pow] on a float and an [int], with the C library's
    [pow] taken to be correctly rounded. *)
Definition float_pow_cr (x : float) (k : Z) : result float :=
  _ <- float_of_int k ;;
  if k =? 0 then Ok 1%float
  else
    let odd_neg (s : bool) := s && Z.odd k in
    match Prim2SF x with
    | S754_nan => Ok nan
    | S754_infinity s =>
        Ok (if 0 <? k
            then (if odd_neg s then neg_infinity else infinity)
            else (if odd_neg s then neg_zero else zero))
    | S754_zero s =>
        if k <? 0 then Raise ZeroDivisionError
        else Ok (if odd_neg s then neg_zero else zero)
    | S754_finite s m e =>
        let y := SF2Prim (pow_finite (odd_neg s) m e k) in
        if is_infinity y then Raise OverflowError else Ok y
    end.

(** The sum of the [Principal] column, line 126, added up in row order. *)
Definition total_principal (rows : list row) : float :=
  fold_left (fun acc x => (acc + Principal x)%float) rows 0%float.

(** The fields that do not mention the fee. *)
Definition fee_free (x : row)
  : Z * date * float * float * float * float * float * float :=
  (Period x, Date x, Payment_base x, Extra_Payment x,
   Payment_total_excl_fees x, Interest x, Principal x, Balance x).

(** Two loop states that agree except in the fee fields of their records. *)
Definition same_but_fee (s1 s2 : loop_state) : Prop :=
  bal s1 = bal s2 /\ current_date s1 = current_date s2 /\
  period s1 = period s2 /\
  map fee_free (records s1) = map fee_free (records s2).

(** Two outcomes that agree except in the fee fields: both out of fuel, the
    same exception, or results related by [R]. *)
Definition same_outcome {A : Type} (R : A -> A -> Prop)
    (o1 o2 : option (result A)) : Prop :=
  match o1, o2 with
  | None, None => True
  | Some (Raise e1), Some (Raise e2) => e1 = e2
  | Some (Ok a1), Some (Ok a2) => R a1 a2
  | _, _ => False
  end.

(** ** The page around the generator *)

(** The fields of a row other than its date. *)
Definition date_free (x : row)
  : Z * float * float * float * float * float * float * float * float :=
  (Period x, Payment_base x, Extra_Payment x, Payment_total_excl_fees x,
   Monthly_Fee x, Payment_grand_total x, Interest x, Principal x, Balance x).

(** The principal of lines 109-111: the loan amount plus the upfront fees,
    plus 18 percent of the fees when GST is included. *)
Definition principal_base (loan_amount extra_fees : float) (gst_toggle : bool)
  : float :=
  let principal_base := (loan_amount + extra_fees)%float in
  if gst_toggle then (principal_base + 0.18 * extra_fees)%float
  else principal_base.

(** The call of lines 114-122: the schedule the page shows for the values of
    its widgets. *)
Definition page_schedule (float_pow : float -> Z -> result float)
    (loan_amount extra_fees rate_pct : float) (years : Z)
    (compounding : string) (start_date : date)
    (include_insurance : bool) (insurance_amt : float)
    (consider_part_prepay : bool) (extra_payment : float) (gst_toggle : bool)
  : option (result (list row * float * Z)) :=
  amortization_schedule float_pow
    (principal_base loan_amount extra_fees gst_toggle)
    rate_pct years compounding start_date
    (if include_insurance then insurance_amt else 0%float)
    (if consider_part_prepay then extra_payment else 0%float).

(** ** The chat page *)

Module Chat.

(** A message of the history: the dictionary with the keys "role" and
    "content". *)
Record message : Set := mk_message { role : string; content : string }.

Definition system_message : message :=
  {| role := "system"; content := "You are a helpful assistant." |}.

(** The keys of [st.session_state] the page reads and writes. *)
Record session : Set := mk_session {
  messages : list message;
  generated : list string;
  user_inputs : list string;
  is_streaming : bool;
  input_text : string
}.

(** The session of a first run, lines 18-25, with the empty text box. *)
Definition initial_session : session :=
  {| messages := [system_message]; generated := []; user_inputs := [];
     is_streaming := false; input_text := ""%string |}.

(** Python's truth value of a string. *)
Definition truthy (s : string) : bool := negb (String.eqb s "").

(** A choice of a streamed chunk, as the loop reads it: the "content" of
    its "delta", [None] when the delta or the content is missing or the
    content is [None]. *)
Definition choice : Set := option string.

(** A chunk: its "choices" when it has that key. *)
Definition chunk : Set := option (list choice).

(** What the API does when it is called: the call raises, or it yields
    chunks and then ends or raises. *)
Inductive response : Set :=
| CreateRaises
| Yields (chunks : list chunk) (then_raises : bool).

(** Lines 74-77 for one choice: the reply so far and the texts shown in the
    placeholder. *)
Definition add_choice (acc : string * list string) (c : choice)
  : string * list string :=
  match c with
  | Some s =>
      if truthy s then
        let full_reply := (fst acc ++ s)%string in
        (full_reply, snd acc ++ [("**Assistant:** " ++ full_reply)%string])
      else acc
  | None => acc
  end.

(** Lines 71-77 for one chunk. *)
Definition add_chunk (acc : string * list string) (ch : chunk)
  : string * list string :=
  match ch with
  | Some choices => fold_left add_choice choices acc
  | None => acc
  end.

(** The loop of lines 69-77 over the chunks received. *)
Definition accumulate (chunks : list chunk) : string * list string :=
  fold_left add_chunk chunks (""%string, []).

(** [stream_openai_response], lines 43-82: the reply returned and the texts
    shown in the placeholder; [None] when the [openai] package is missing
    and [get_openai_client] raises.  [api_key] is the key found in the
    secrets or the environment, [api] the streaming call. *)
Definition stream_openai_response (openai_installed : bool)
    (api_key : option string) (api : list message -> response)
    (msgs : list message) : option (string * list string) :=
  if openai_installed then
    match api_key with
    | Some key =>
        if truthy key then
          match api msgs with
          | CreateRaises => Some (""%string, [])
          | Yields chunks then_raises =>
              let '(full_reply, shown) := accumulate chunks in
              if then_raises then Some (""%string, shown) else Some (full_reply, shown)
          end
        else Some (""%string, [])
    | None => Some (""%string, [])
    end
  else None.

Section Page.

(** Python's [str.strip]. *)
Variable strip : string -> string.

(** The environment of one run. *)
Variables (openai_installed : bool) (api_key : option string).
Variable api : list message -> response.

(** [on_send], lines 84-103: the session it leaves, and whether it
    returned ([true]) or let the exception of [get_openai_client] out
    ([false]). *)
Definition on_send (st : session) : session * bool :=
  let user_input := strip (input_text st) in
  if truthy user_input then
    let msgs := messages st ++ [ {| role := "user"; content := user_input |} ] in
    let inputs := user_inputs st ++ [user_input] in
    match stream_openai_response openai_installed api_key api msgs with
    | None =>
        ({| messages := msgs; generated := generated st;
            user_inputs := inputs; is_streaming := true;
            input_text := ""%string |}, false)
    | Some (assistant_reply, _) =>
        if truthy assistant_reply then
          ({| messages :=
                msgs ++ [ {| role := "assistant"; content := assistant_reply |} ];
              generated := generated st ++ [assistant_reply];
              user_inputs := inputs; is_streaming := false;
              input_text := ""%string |}, true)
        else
          ({| messages := msgs; generated := generated st;
              user_inputs := inputs; is_streaming := false;
              input_text := ""%string |}, true)
    end
  else (st, true).

End Page.

(** The "Clear Chat" button, lines 121-124. *)
Definition clear_chat (st : session) : session :=
  {| messages := [system_message]; generated := []; user_inputs := [];
     is_streaming := is_streaming st; input_text := input_text st |}.

(** The chat display, lines 105-115: the [st.markdown] calls in order. *)
Fixpoint render (msgs : list message) : list string :=
  match msgs with
  | [] => []
  | msg :: rest =>
      if String.eqb (role msg) "system" then render rest
      else if String.eqb (role msg) "user"
      then ("**You:** " ++ content msg)%string :: render rest
      else if String.eqb (role msg) "assistant"
      then ("**Assistant:** " ++ content msg)%string :: render rest
      else render rest
  end.

(** What the user does between two runs of the page: types a text, which
    calls [on_send] in some environment, or presses "Clear Chat". *)
Inductive event : Type :=
| Send (text : string) (openai_installed : bool) (api_key : option string)
       (api : list message -> response)
| Clear.

Definition step (strip : string -> string) (st : session) (ev : event)
  : session :=
  match ev with
  | Send text installed key api =>
      fst (on_send strip installed key api
             {| messages := messages st; generated := generated st;
                user_inputs := user_inputs st;
                is_streaming := is_streaming st; input_text := text |})
  | Clear => clear_chat st
  end.

Definition run (strip : string -> string) (evs : list event) : session :=
  fold_left (step strip) evs initial_session.

(** The contents of the messages of one role. *)
Definition contents_of (r : string) (msgs : list message) : list string :=
  map content (filter (fun msg => String.eqb (role msg) r) msgs).

(** A history in which the users and the assistant take turns: after the
    system message, user messages, each followed by at most one assistant
    message. *)
Fixpoint turns (expect_reply : bool) (msgs : list message) : bool :=
  match msgs with
  | [] => true
  | msg :: rest =>
      if String.eqb (role msg) "user" then truthy (content msg) && turns true rest
      else if String.eqb (role msg) "assistant"
      then expect_reply && truthy (content msg) && turns false rest
      else false
  end.

(** The contents of the choices of one chunk, in order. *)
Definition contents_of_choices (choices : list choice) : list string :=
  flat_map (fun c : choice => match c with Some s => [s] | None => [] end)
           choices.

(** The contents of the choices of the chunks, in the order the loop meets
    them. *)
Definition all_contents (chunks : list chunk) : list string :=
  flat_map (fun ch : chunk =>
              match ch with
              | Some choices => contents_of_choices choices
              | None => []
              end) chunks.

(** The concatenation of a list of strings. *)
Definition join (l : list string) : string :=
  fold_right String.append ""%string l.

(** The line the display shows for a message that is not the system's. *)
Definition line (msg : message) : string :=
  if String.eqb (role msg) "user" then ("**You:** " ++ content msg)%string
  else ("**Assistant:** " ++ content msg)%string.

(** What the placeholder has shown next to the reply accumulated so far. *)
Definition shown_ok (acc : string * list string) : Prop :=
  Forall (fun t => exists p, t = ("**Assistant:** " ++ p)%string /\
                             truthy p = true /\
                             String.prefix p (fst acc) = true) (snd acc) /\
  (fst acc = ""%string -> snd acc = []) /\
  (fst acc <> ""%string ->
   last (snd acc) ""%string = ("**Assistant:** " ++ fst acc)%string).

(** The history a session keeps: the system message first, then turns of
    the user and the assistant, with [user_inputs] and [generated] the
    contents of the messages of these two roles. *)
Definition consistent (st : session) : Prop :=
  exists rest,
    messages st = system_message :: rest /\
    turns false rest = true /\
    user_inputs st = contents_of "user" (messages st) /\
    generated st = contents_of "assistant" (messages st).

End Chat.

(** ** Binary64 facts *)

Lemma Prim2SF_eps : Prim2SF 1e-6 = S754_finite false 4722366482869645 (-72).
Proof. vm_compute. reflexivity. Qed.

Lemma gt_eps_lt_finite (b c : float) :
  (1e-6 <? b)%float = true -> (b <? c)%float = true ->
  exists m e, Prim2SF b = S754_finite false m e.
Proof.
  rewrite !ltb_spec, Prim2SF_eps. unfold SFltb.
  destruct (Prim2SF b) as [s|s| |s m e]; simpl.
  - discriminate.
  - destruct s; [discriminate|]. intros _.
    destruct (Prim2SF c) as [s'|s'| |s' m' e']; simpl; try discriminate.
    destruct s'; discriminate.
  - discriminate.
  - destruct s; [discriminate|]. intros _ _. eauto.
Qed.

Lemma sub_diag_finite (b : float) s m e :
  Prim2SF b = S754_finite s m e -> (b - b)%float = 0%float.
Proof.
  intros H. apply Prim2SF_inj. rewrite sub_spec, H.
  unfold SF64sub, SFsub. rewrite Z.sub_diag. vm_compute. reflexivity.
Qed.

Lemma SFcompare_antisym x y :
  SFcompare y x = option_map CompOpp (SFcompare x y).
Proof.
  destruct x as [sx|sx| |sx mx ex], y as [sy|sy| |sy my ey]; simpl;
    try reflexivity;
    try (destruct sx; reflexivity); try (destruct sy; reflexivity);
    try (destruct sx, sy; reflexivity).
  destruct sx, sy; simpl; try reflexivity;
    rewrite (Z.compare_antisym ex ey); destruct (ex ?= ey) eqn:E; simpl;
    try reflexivity;
    change (Pos.compare_cont Eq my mx) with (Pos.compare_cont (CompOpp Eq) my mx);
    rewrite <- (Pos.compare_cont_antisym mx my Eq); simpl; try reflexivity.
Qed.

Lemma leb_not_ltb (x y : float) :
  (x <=? y)%float = true -> (y <? x)%float = false.
Proof.
  rewrite leb_spec, ltb_spec. unfold SFleb, SFltb.
  rewrite (SFcompare_antisym (Prim2SF x) (Prim2SF y)).
  destruct (SFcompare (Prim2SF x) (Prim2SF y)) as [[| |]|]; simpl; congruence.
Qed.

Lemma ltb_irrefl (x : float) : (x <? x)%float = false.
Proof.
  rewrite ltb_spec. unfold SFltb.
  pose proof (SFcompare_antisym (Prim2SF x) (Prim2SF x)) as H.
  destruct (SFcompare (Prim2SF x) (Prim2SF x)) as [[| |]|]; simpl in H;
    try reflexivity; discriminate.
Qed.

Lemma digits2_pos_bounds (m : positive) :
  2 ^ (Zpos (digits2_pos m) - 1) <= Zpos m < 2 ^ Zpos (digits2_pos m).
Proof.
  induction m as [m IH|m IH|]; simpl digits2_pos.
  - rewrite Pos2Z.inj_succ, Z.pow_succ_r by lia.
    replace (Z.succ (Zpos (digits2_pos m)) - 1) with (Z.succ (Zpos (digits2_pos m) - 1)) by lia.
    rewrite Z.pow_succ_r by lia. lia.
  - rewrite Pos2Z.inj_succ, Z.pow_succ_r by lia.
    replace (Z.succ (Zpos (digits2_pos m)) - 1) with (Z.succ (Zpos (digits2_pos m) - 1)) by lia.
    rewrite Z.pow_succ_r by lia. lia.
  - simpl. lia.
Qed.

(** What validity says of a finite binary64 value. *)
Lemma valid_finite (x : float) s m e :
  Prim2SF x = S754_finite s m e ->
  -1074 <= e /\ Zpos m < 2 ^ 53 /\ (-1074 < e -> 2 ^ 52 <= Zpos m).
Proof.
  intros H. pose proof (Prim2SF_valid x) as V. rewrite H in V.
  unfold SpecFloat.valid_binary, bounded, canonical_mantissa, fexp, SpecFloat.emin in V.
  apply andb_prop in V. destruct V as [V _]. apply Z.eqb_eq in V.
  change prec with 53 in V. change emax with 1024 in V.
  pose proof (digits2_pos_bounds m) as [L U].
  assert (D : Zpos (digits2_pos m) <= 53) by lia.
  split; [lia|]. split.
  - eapply Z.lt_le_trans; [exact U|]. apply Z.pow_le_mono_r; lia.
  - intros He. assert (Zpos (digits2_pos m) = 53) by lia.
    rewrite H0 in L. exact L.
Qed.

Lemma Prim2SF_zero : Prim2SF 0 = S754_zero false.
Proof. vm_compute. reflexivity. Qed.

Lemma iter_xO_ge (d m : positive) : (m~0 <= Pos.iter xO m d)%positive.
Proof.
  induction d as [|d IH] using Pos.peano_ind.
  - simpl. lia.
  - rewrite Pos.iter_succ. lia.
Qed.

(** The outcome of rounding a non-negative integer mantissa. *)
Lemma binary_normalize_nonneg (z e : Z) :
  0 <= z ->
  let x := binary_normalize prec emax z e false in
  x = S754_nan \/ SFleb (S754_zero false) x = true.
Proof.
  intros Hz. destruct z as [|p|p]; [right; reflexivity| |lia].
  unfold binary_normalize, binary_round.
  destruct (shl_align p e _) as [mz ez].
  unfold binary_round_aux.
  destruct (shr_fexp prec emax (Zpos mz) ez loc_Exact) as [mrs' e'].
  destruct (shr_fexp prec emax _ e' loc_Exact) as [mrs'' e''].
  destruct (shr_m mrs'') as [|q|q]; [right; reflexivity| |left; reflexivity].
  destruct (e'' <=? emax - prec); right; reflexivity.
Qed.

Lemma sub_nonneg (b c : float) :
  (1e-6 <? b)%float = true -> (b <? c)%float = false ->
  (b - c)%float = nan \/ (0 <=? b - c)%float = true.
Proof.
  intros Hgt Hlt.
  assert (Hout : Prim2SF (b - c) = S754_nan \/
                 SFleb (S754_zero false) (Prim2SF (b - c)) = true).
  { rewrite sub_spec. rewrite ltb_spec in Hgt, Hlt. rewrite Prim2SF_eps in Hgt.
    unfold SFltb in Hgt, Hlt.
    destruct (Prim2SF b) as [sb|sb| |sb mb eb] eqn:Eb; simpl in Hgt;
      try discriminate.
    - destruct sb; [discriminate|].
      destruct (Prim2SF c) as [sc|sc| |sc mc ec]; simpl; auto.
      destruct sc; auto.
    - destruct sb; [discriminate|]. clear Hgt.
      destruct (Prim2SF c) as [sc|sc| |sc mc ec] eqn:Ec;
        [simpl; auto | | simpl; auto | ].
      + destruct sc; simpl in *; [auto | discriminate].
      + unfold SF64sub, SFsub. apply binary_normalize_nonneg.
        destruct sc; cbn [cond_Zopp]; [lia|].
        simpl in Hlt.
        destruct (valid_finite b _ _ _ Eb) as (Lb & Ub & Nb).
        destruct (valid_finite c _ _ _ Ec) as (Lc & Uc & Nc).
        unfold shl_align.
        destruct (Z.compare_spec eb ec) as [E|E|E]; [| discriminate |].
        * subst ec. rewrite Z.min_id, Z.sub_diag. cbn [fst].
          destruct (Pos.compare_cont Eq mb mc) eqn:Ecmp; try discriminate.
          -- apply Pos.compare_eq in Ecmp. lia.
          -- change (Pos.compare mb mc = Gt) in Ecmp.
             apply Pos.compare_gt_iff in Ecmp. lia.
        * rewrite Z.min_r by lia. rewrite Z.sub_diag.
          destruct (ec - eb) as [|d|d] eqn:Ed; try lia. cbn [fst].
          pose proof (iter_xO_ge d mb) as Hi.
          assert (2 ^ 52 <= Zpos mb) by (apply Nb; lia).
          assert (Zpos (Pos.iter xO mb d) >= 2 * Zpos mb) by lia.
          lia. }
  destruct Hout as [Hn|Hle].
  - left. apply Prim2SF_inj. rewrite Hn. vm_compute. reflexivity.
  - right. rewrite leb_spec, Prim2SF_zero. exact Hle.
Qed.

Lemma eqb_zero_l (s : bool) (x : float) :
  Prim2SF x = S754_zero s -> (x =? 0)%float = true.
Proof. intros H. rewrite eqb_spec, H, Prim2SF_zero. reflexivity. Qed.

(** A non-negative amount that is not above 1e-6 is stored as zero. *)
Lemma round2_small (x : float) :
  (0 <=? x)%float = true -> (1e-6 <? x)%float = false ->
  (round2 x =? 0)%float = true.
Proof.
  intros Hge Hle. unfold round2.
  rewrite leb_spec, Prim2SF_zero in Hge. rewrite ltb_spec, Prim2SF_eps in Hle.
  unfold SFleb in Hge. unfold SFltb in Hle.
  destruct (Prim2SF x) as [s|s| |s m e] eqn:Ex.
  - exact (eqb_zero_l s x Ex).
  - destruct s; simpl in *; discriminate.
  - discriminate.
  - destruct s; [discriminate|]. clear Hge. unfold SFcompare in Hle.
    destruct (valid_finite x _ _ _ Ex) as (_ & Um & _).
    assert (He : e <= -72).
    { destruct (Z.compare_spec (-72) e); try discriminate; lia. }
    destruct e as [|p|p]; try lia.
    unfold hundredths, round_half_even_div.
    assert (Hp : 2 ^ 72 <= 2 ^ Zpos p) by (apply Z.pow_le_mono_r; lia).
    assert (H53 : 2 ^ 53 * 200 < 2 ^ 72) by (vm_compute; reflexivity).
    assert (Hsmall : 2 * (Zpos m * 100) < 2 ^ Zpos p) by lia.
    rewrite Z.mod_small by lia. rewrite Z.div_small by lia.
    apply Z.compare_lt_iff in Hsmall. rewrite Hsmall.
    reflexivity.
Qed.

(** ** The loop *)

Section LoopFacts.

Variables (base_payment r monthly_fee extra_per_period : float).
Variables (delta n : Z).

Local Abbreviation body := (loop_body base_payment r monthly_fee extra_per_period delta).
Local Abbreviation guard := (loop_guard n).
Local Abbreviation run := (while_loop base_payment r monthly_fee extra_per_period delta n).
Local Abbreviation row_at := (row_of base_payment r monthly_fee extra_per_period).
Local Abbreviation step := (next_bal base_payment r extra_per_period).
Local Abbreviation bal_at := (bal_after base_payment r extra_per_period).
Local Abbreviation rows_of := (trace base_payment r monthly_fee extra_per_period delta).

(** The body computes the period's quantities from the balance alone. *)
Lemma loop_body_spec (st : loop_state) :
  body st =
  (d <- date_add_days (current_date st) delta ;;
   Ok {| bal := step (bal st);
         current_date := d;
         period := period st + 1;
         records := records st ++
           [row_at (period st + 1) (current_date st) (bal st)] |}).
Proof.
  unfold loop_body, row_of, next_bal, total_paid_of, principal_component_of,
    clamps, principal_due, interest_of.
  destruct (bal st <? _)%float; reflexivity.
Qed.

Lemma date_add_days_ok (d k d' : date) :
  date_add_days d k = Ok d' -> d' = d + k /\ 0 < d + k <= MAXORDINAL.
Proof.
  unfold date_add_days. destruct (0 <? d + k) eqn:H1; simpl; [|discriminate].
  destruct (d + k <=? MAXORDINAL) eqn:H2; [|discriminate].
  intros [= <-]. lia.
Qed.

Lemma loop_body_ok (st st' : loop_state) :
  body st = Ok st' ->
  bal st' = step (bal st) /\
  current_date st' = current_date st + delta /\
  period st' = period st + 1 /\
  records st' =
    records st ++ [row_at (period st + 1) (current_date st) (bal st)].
Proof.
  rewrite loop_body_spec.
  destruct (date_add_days (current_date st) delta) as [d|e] eqn:Hd; simpl;
    [|discriminate].
  intros [= <-]. apply date_add_days_ok in Hd. simpl. intuition.
Qed.

(** Fuel beyond what the cap leaves is never used. *)
Lemma while_loop_enough (fuel : nat) (st : loop_state) :
  1000 * n - period st <= Z.of_nat fuel ->
  exists out, run fuel st = Some out.
Proof.
  revert st. induction fuel as [|fuel IH]; intros st Hf; simpl.
  - unfold loop_guard. destruct (1e-6 <? bal st)%float; simpl; eauto.
    destruct (period st <? 1000 * n) eqn:Hp; eauto.
    apply Z.ltb_lt in Hp. lia.
  - destruct (guard st); eauto.
    destruct (body st) as [st'|e] eqn:Hb; eauto.
    apply IH. apply loop_body_ok in Hb. destruct Hb as (_ & _ & -> & _). lia.
Qed.

Lemma while_loop_more (fuel fuel' : nat) (st : loop_state) out :
  run fuel st = Some out -> (fuel <= fuel')%nat -> run fuel' st = Some out.
Proof.
  revert fuel' st. induction fuel as [|fuel IH]; intros fuel' st; simpl.
  - destruct (guard st) eqn:Hg; [discriminate|].
    intros H _. destruct fuel'; simpl; rewrite Hg; exact H.
  - destruct (guard st) eqn:Hg.
    + destruct fuel' as [|fuel']; [lia|]. simpl. rewrite Hg.
      destruct (body st); auto. intros H Hle. apply IH; [exact H | lia].
    + intros H _. destruct fuel'; simpl; rewrite Hg; exact H.
Qed.

(** A run that returns has appended the records of [k] consecutive
    periods, each entered with the loop condition true, and stops with the
    condition false. *)
Lemma while_loop_trace (fuel : nat) (st st' : loop_state) :
  run fuel st = Some (Ok st') ->
  exists k : nat,
    bal st' = bal_at k (bal st) /\
    period st' = period st + Z.of_nat k /\
    current_date st' = current_date st + Z.of_nat k * delta /\
    records st' = records st ++ rows_of k (period st) (current_date st) (bal st) /\
    (forall i, (i < k)%nat ->
       (1e-6 <? bal_at i (bal st))%float = true /\
       period st + Z.of_nat i < 1000 * n) /\
    guard st' = false.
Proof.
  assert (Stop : forall st0, guard st0 = false ->
    bal st0 = bal_at 0 (bal st0) /\
    period st0 = period st0 + Z.of_nat 0 /\
    current_date st0 = current_date st0 + Z.of_nat 0 * delta /\
    records st0 =
      records st0 ++ rows_of 0 (period st0) (current_date st0) (bal st0) /\
    (forall i, (i < 0)%nat ->
       (1e-6 <? bal_at i (bal st0))%float = true /\
       period st0 + Z.of_nat i < 1000 * n) /\
    guard st0 = false).
  { intros st0 Hg. simpl. rewrite app_nil_r.
    split; [reflexivity|]. split; [lia|]. split; [lia|]. split; [reflexivity|].
    split; [intros i Hi; lia | exact Hg]. }
  revert st. induction fuel as [|fuel IH]; intros st; simpl.
  - destruct (guard st) eqn:Hg; [discriminate|]. intros [= <-].
    exists O. apply Stop, Hg.
  - destruct (guard st) eqn:Hg.
    + destruct (body st) as [st1|e] eqn:Hb; [|discriminate].
      intros H. apply IH in H.
      destruct H as (k & Hbal & Hper & Hdate & Hrec & Hi & Hg').
      apply loop_body_ok in Hb. destruct Hb as (Eb & Ed & Ep & Er).
      exists (S k). rewrite Hbal, Hper, Hdate, Hrec, Eb, Ed, Ep, Er. simpl.
      rewrite <- app_assoc. simpl.
      split; [reflexivity|]. split; [lia|]. split; [lia|]. split; [reflexivity|].
      split; [|exact Hg'].
      intros [|i] Hlt; simpl.
      * unfold loop_guard in Hg. apply andb_prop in Hg.
        destruct Hg as [H1 H2]. apply Z.ltb_lt in H2. split; [exact H1 | lia].
      * destruct (Hi i ltac:(lia)) as [H1 H2]. rewrite Eb, Ep in *.
        split; [exact H1 | lia].
    + intros [= <-]. exists O. apply Stop, Hg.
Qed.

Lemma trace_length (j : nat) p d b : List.length (rows_of j p d b) = j.
Proof. revert p d b. induction j; intros; simpl; auto. Qed.

Lemma trace_nth (j : nat) p d b (i : nat) :
  (i < j)%nat ->
  nth_error (rows_of j p d b) i =
  Some (row_at (p + Z.of_nat i + 1) (d + Z.of_nat i * delta) (bal_at i b)).
Proof.
  revert p d b i. induction j as [|j IH]; intros p d b i Hi; [lia|].
  destruct i as [|i]; simpl.
  - f_equal. f_equal; lia.
  - rewrite IH by lia. f_equal. f_equal; lia.
Qed.

Lemma bal_after_S (i : nat) b : bal_at (S i) b = step (bal_at i b).
Proof. revert b. induction i as [|i IH]; intros b; [reflexivity|]. simpl. rewrite <- IH. reflexivity. Qed.

End LoopFacts.

(** ** The schedule as a whole *)

Lemma periods_per_year_cases (freq : string) (m : Z) :
  periods_per_year freq = Ok m -> m = 12 \/ m = 4 \/ m = 1.
Proof.
  unfold periods_per_year.
  destruct (String.eqb freq "Monthly"); [intros [= <-]; auto|].
  destruct (String.eqb freq "Quarterly"); [intros [= <-]; auto|].
  destruct (String.eqb freq "Yearly"); [intros [= <-]; auto|discriminate].
Qed.

Section ScheduleFacts.

Variable float_pow : float -> Z -> result float.
Variables (principal apr : float) (years : Z) (freq : string) (start_date : date).
Variables (monthly_fee extra_per_period : float).

Local Abbreviation schedule_with fuel :=
  (amortization_schedule_fuel float_pow fuel principal apr years freq
     start_date monthly_fee extra_per_period).

(** What a returned schedule is made of: the unrounded payment [b], the
    records of [length rows] consecutive periods from the principal, each
    entered with the loop condition true, and the condition false at the
    end. *)
Lemma schedule_inv (fuel : nat) rows bp per :
  schedule_with fuel = Some (Ok (rows, bp, per)) ->
  exists m r b delta,
    periods_per_year freq = Ok m /\
    rate_per_period apr m = Ok r /\
    pmt float_pow r (years * m) principal = Ok b /\
    period_delta freq = Ok delta /\
    bp = round2 b /\
    per = Z.of_nat (List.length rows) /\
    rows = trace b r monthly_fee extra_per_period delta
             (List.length rows) 0 start_date principal /\
    (forall i, (i < List.length rows)%nat ->
       (1e-6 <? bal_after b r extra_per_period i principal)%float = true /\
       Z.of_nat i < 1000 * (years * m)) /\
    ((1e-6 <? bal_after b r extra_per_period (List.length rows) principal)%float
     && (per <? 1000 * (years * m))) = false.
Proof.
  unfold amortization_schedule_fuel.
  destruct (periods_per_year freq) as [m|e] eqn:Hm; simpl; [|discriminate].
  destruct (rate_per_period apr m) as [r|e] eqn:Hr; simpl; [|discriminate].
  destruct (pmt float_pow r (years * m) principal) as [b|e] eqn:Hb; simpl;
    [|discriminate].
  destruct (period_delta freq) as [delta|e] eqn:Hd; simpl; [|discriminate].
  destruct (while_loop _ _ _ _ _ _ _ _) as [[st|e]|] eqn:Hw; try discriminate.
  intros [= <- <- <-].
  apply while_loop_trace in Hw. simpl in Hw.
  destruct Hw as (k & Hbal & Hper & _ & Hrec & Hi & Hg).
  assert (Hlen : List.length (records st) = k)
    by (rewrite Hrec; apply trace_length).
  exists m, r, b, delta. rewrite Hlen.
  do 5 (split; [first [reflexivity | assumption]|]). split; [lia|].
  split; [exact Hrec|]. split.
  - intros i Hlt. destruct (Hi i Hlt) as [H1 H2]. split; [exact H1|lia].
  - unfold loop_guard in Hg. rewrite Hbal in Hg. exact Hg.
Qed.

(** The loop never needs more iterations than [cap_fuel] provides. *)
Lemma schedule_total :
  exists out,
    forall fuel, (cap_fuel years <= fuel)%nat -> schedule_with fuel = Some out.
Proof.
  unfold amortization_schedule_fuel.
  destruct (periods_per_year freq) as [m|e] eqn:Hm; simpl; [|eauto].
  destruct (rate_per_period apr m) as [r|e] eqn:Hr; simpl; [|eauto].
  destruct (pmt float_pow r (years * m) principal) as [b|e] eqn:Hb; simpl;
    [|eauto].
  destruct (period_delta freq) as [delta|e] eqn:Hd; simpl; [|eauto].
  destruct (while_loop_enough b r monthly_fee extra_per_period delta
              (years * m) (cap_fuel years)
              {| bal := principal; current_date := start_date;
                 period := 0; records := [] |}) as [out Hout].
  { simpl. unfold cap_fuel.
    apply periods_per_year_cases in Hm. destruct Hm as [->|[->| ->]]; lia. }
  exists (match out with
          | Ok st => Ok (records st, round2 b, period st)
          | Raise e => Raise e
          end).
  intros fuel Hle.
  rewrite (while_loop_more _ _ _ _ _ _ _ _ _ _ Hout Hle).
  destruct out; reflexivity.
Qed.

End ScheduleFacts.

Lemma period_delta_cases (freq : string) (delta : Z) :
  period_delta freq = Ok delta ->
  delta = (if String.eqb freq "Monthly" then 30
           else if String.eqb freq "Quarterly" then 91 else 365).
Proof.
  unfold period_delta.
  destruct (String.eqb freq "Monthly"); [intros [= <-]; auto|].
  destruct (String.eqb freq "Quarterly"); [intros [= <-]; auto|].
  destruct (String.eqb freq "Yearly"); [intros [= <-]; auto|discriminate].
Qed.

Lemma period_delta_defined (freq : string) (m : Z) :
  periods_per_year freq = Ok m -> exists delta, period_delta freq = Ok delta.
Proof.
  unfold periods_per_year, period_delta.
  destruct (String.eqb freq "Monthly"); [eauto|].
  destruct (String.eqb freq "Quarterly"); [eauto|].
  destruct (String.eqb freq "Yearly"); [eauto|discriminate].
Qed.

(** While the dates stay in range the loop raises nothing. *)
Lemma while_loop_no_raise (b r fee extra : float) (delta n : Z) (fuel : nat) :
  forall st e,
  0 <= delta -> 0 < current_date st ->
  current_date st + (1000 * n - period st) * delta <= MAXORDINAL ->
  while_loop b r fee extra delta n fuel st <> Some (Raise e).
Proof.
  induction fuel as [|fuel IH]; intros st e Hdelta Hd0 Hmax; simpl.
  - destruct (loop_guard n st); discriminate.
  - destruct (loop_guard n st) eqn:Hg; [|discriminate].
    unfold loop_guard in Hg. apply andb_prop in Hg. destruct Hg as [_ Hp].
    apply Z.ltb_lt in Hp.
    rewrite loop_body_spec. unfold date_add_days.
    assert (H1 : (0 <? current_date st + delta) = true) by (apply Z.ltb_lt; lia).
    assert (H2 : (current_date st + delta <=? MAXORDINAL) = true)
      by (apply Z.leb_le; nia).
    rewrite H1, H2. simpl. apply IH; simpl; try lia.
Qed.

(** With a known frequency, a payment formula that returns and dates in
    range up to the cap, the generator returns a schedule. *)
Lemma schedule_returns (float_pow : float -> Z -> result float)
    (principal apr : float) (years : Z) (freq : string) (start_date : date)
    (monthly_fee extra_per_period : float) (m : Z) (r b : float) (delta : Z) :
  periods_per_year freq = Ok m ->
  rate_per_period apr m = Ok r ->
  pmt float_pow r (years * m) principal = Ok b ->
  period_delta freq = Ok delta ->
  0 < start_date ->
  start_date + 1000 * (years * m) * delta <= MAXORDINAL ->
  exists rows per,
    amortization_schedule float_pow principal apr years freq start_date
      monthly_fee extra_per_period = Some (Ok (rows, round2 b, per)).
Proof.
  intros Hm Hr Hb Hd H0 Hmax.
  destruct (schedule_total float_pow principal apr years freq start_date
              monthly_fee extra_per_period) as [out Hout].
  specialize (Hout _ (Nat.le_refl _)).
  unfold amortization_schedule. rewrite Hout.
  unfold amortization_schedule_fuel in Hout.
  rewrite Hm in Hout. simpl in Hout. rewrite Hr in Hout. simpl in Hout.
  rewrite Hb in Hout. simpl in Hout. rewrite Hd in Hout. simpl in Hout.
  destruct (while_loop _ _ _ _ _ _ _ _) as [[st|e]|] eqn:W; try discriminate.
  - injection Hout as <-. eauto.
  - exfalso. eapply while_loop_no_raise; [| | |exact W]; simpl.
    + apply period_delta_cases in Hd.
      destruct (String.eqb freq "Monthly"); [lia|].
      destruct (String.eqb freq "Quarterly"); lia.
    + exact H0.
    + lia.
Qed.

(** ** The payment formula *)

(** C1. [pmt] returns 0 for [n = 0]; for [n <> 0] and [|r| < 1e-9] it is
    Python's [principal / n]; otherwise it is Python's
    [principal * r * factor / (factor - 1)] with [factor = (1 + r) ** n].
    Where the operators of these expressions do not raise, the values are
    the binary64 quotients themselves. *)
Theorem pmt_cases (float_pow : float -> Z -> result float)
    (r : float) (n : Z) (P : float) :
  (n = 0 -> pmt float_pow r n P = Ok 0%float) /\
  (n <> 0 -> (abs r <? 1e-9)%float = true ->
     pmt float_pow r n P = truediv_int P n /\
     forall nf, float_of_int n = Ok nf -> (nf =? 0)%float = false ->
       pmt float_pow r n P = Ok (P / nf)%float) /\
  (n <> 0 -> (abs r <? 1e-9)%float = false ->
     pmt float_pow r n P =
       (factor <- float_pow (1 + r)%float n ;;
        truediv (P * r * factor)%float (factor - 1)%float) /\
     forall factor, float_pow (1 + r)%float n = Ok factor ->
       (factor - 1 =? 0)%float = false ->
       pmt float_pow r n P = Ok (P * r * factor / (factor - 1))%float).
Proof.
  unfold pmt. split; [|split].
  - intros ->. reflexivity.
  - intros Hn Hr. apply Z.eqb_neq in Hn. rewrite Hn, Hr. split; [reflexivity|].
    intros nf Hnf Hz. unfold truediv_int. rewrite Hnf. simpl.
    unfold truediv. rewrite Hz. reflexivity.
  - intros Hn Hr. apply Z.eqb_neq in Hn. rewrite Hn, Hr. split; [reflexivity|].
    intros factor Hf Hz. rewrite Hf. simpl. unfold truediv. rewrite Hz.
    reflexivity.
Qed.

(** The three branches at 1000 over no period, 1200 over twelve periods at
    a zero rate, and 1000 over two periods at one percent a period. *)
Lemma pmt_cases_witness :
  pmt float_pow_cr 0.01 0 1000 = Ok 0%float /\
  pmt float_pow_cr 0 12 1200 = Ok (1200 / 12)%float /\
  pmt float_pow_cr 0.01 2 1000
    = Ok (1000 * 0.01 * 1.0201 / (1.0201 - 1))%float.
Proof.
  split; [|split].
  - apply (pmt_cases float_pow_cr 0.01 0 1000). reflexivity.
  - apply (pmt_cases float_pow_cr 0 12 1200);
      [lia | reflexivity | vm_compute; reflexivity | reflexivity].
  - apply (pmt_cases float_pow_cr 0.01 2 1000);
      [lia | reflexivity | vm_compute; reflexivity | reflexivity].
Defined.

(** ** Termination and the row bound *)

(** C6. The generator terminates on every input: with the iterations the
    cap allows it always produces an outcome (a schedule or an exception),
    more fuel changes nothing, and a returned schedule has as many rows as
    the returned period count, at most [1000 * n] of them for
    [n = years * periods_per_year] (none when that is negative). *)
Theorem schedule_terminates (float_pow : float -> Z -> result float)
    (principal apr : float) (years : Z) (freq : string) (start_date : date)
    (monthly_fee extra_per_period : float) :
  exists out,
    amortization_schedule float_pow principal apr years freq start_date
      monthly_fee extra_per_period = Some out /\
    (forall fuel, (cap_fuel years <= fuel)%nat ->
       amortization_schedule_fuel float_pow fuel principal apr years freq
         start_date monthly_fee extra_per_period = Some out) /\
    (forall rows bp per m,
       out = Ok (rows, bp, per) -> periods_per_year freq = Ok m ->
       Z.of_nat (List.length rows) = per /\
       per <= Z.max 0 (1000 * (years * m))).
Proof.
  destruct (schedule_total float_pow principal apr years freq start_date
              monthly_fee extra_per_period) as [out Hout].
  exists out. split; [apply Hout; apply Nat.le_refl|]. split; [exact Hout|].
  intros rows bp per m -> Hm.
  pose proof (Hout _ (Nat.le_refl _)) as H0. apply schedule_inv in H0.
  destruct H0 as (m' & r & b & delta & Hm' & _ & _ & _ & _ & Hper & _ & Hi & _).
  rewrite Hm in Hm'. injection Hm' as <-.
  split; [symmetry; exact Hper|].
  subst per. destruct (List.length rows) as [|k]; [lia|].
  destruct (Hi k (Nat.lt_succ_diag_r k)) as [_ Hk]. lia.
Qed.

(** Three yearly periods: three rows, under the cap of 3000. *)
Lemma schedule_terminates_witness :
  exists rows bp,
    amortization_schedule float_pow_cr 1 0 3 "Yearly" 739000 0 0
      = Some (Ok (rows, bp, 3)) /\
    Z.of_nat (List.length rows) = 3 /\ 3 <= Z.max 0 (1000 * (3 * 1)).
Proof.
  destruct (schedule_terminates float_pow_cr 1 0 3 "Yearly" 739000 0 0)
    as (out & Hout & _ & Hrows).
  vm_compute in Hout. injection Hout as <-.
  do 2 eexists. split; [vm_compute; reflexivity|].
  eapply Hrows; reflexivity.
Defined.

(** ** Dates *)

(** C8. In a returned schedule the first row is dated [start_date] and every
    later row is dated the fixed offset after the row before it: 30 days
    for "Monthly", 91 for "Quarterly", 365 for "Yearly". *)
Theorem row_dates (float_pow : float -> Z -> result float)
    (principal apr : float) (years : Z) (freq : string) (start_date : date)
    (monthly_fee extra_per_period : float) rows bp per :
  amortization_schedule float_pow principal apr years freq start_date
    monthly_fee extra_per_period = Some (Ok (rows, bp, per)) ->
  let offset :=
    if String.eqb freq "Monthly" then 30
    else if String.eqb freq "Quarterly" then 91 else 365 in
  (forall x, nth_error rows 0 = Some x -> Date x = start_date) /\
  (forall i x y,
     nth_error rows i = Some x -> nth_error rows (S i) = Some y ->
     Date y = Date x + offset).
Proof.
  intros H offset. apply schedule_inv in H.
  destruct H as (m & r & b & delta & _ & _ & _ & Hd & _ & _ & Hrows & _).
  apply period_delta_cases in Hd. fold offset in Hd. subst delta.
  assert (Hnth : forall i x, nth_error rows i = Some x ->
            Date x = start_date + Z.of_nat i * offset).
  { intros i x Hx.
    assert (Hi : (i < List.length rows)%nat)
      by (apply nth_error_Some; rewrite Hx; discriminate).
    rewrite Hrows, trace_nth in Hx by exact Hi.
    injection Hx as <-. reflexivity. }
  split.
  - intros x Hx. rewrite (Hnth _ _ Hx). lia.
  - intros i x y Hx Hy. rewrite (Hnth _ _ Hx), (Hnth _ _ Hy). lia.
Qed.

(** Three yearly periods from ordinal 739000 at a zero rate. *)
Lemma row_dates_witness :
  exists rows,
    amortization_schedule float_pow_cr 1 0 3 "Yearly" 739000 0 0
      = Some (Ok (rows, 0.33%float, 3)) /\
    map Date rows = [739000; 739365; 739730] /\
    (forall x, nth_error rows 0 = Some x -> Date x = 739000) /\
    (forall i x y,
       nth_error rows i = Some x -> nth_error rows (S i) = Some y ->
       Date y = Date x + 365).
Proof.
  eexists. split; [vm_compute; reflexivity|]. split; [reflexivity|].
  apply (row_dates float_pow_cr 1 0 3 "Yearly" 739000 0 0 _ 0.33%float 3).
  vm_compute. reflexivity.
Defined.

(** ** The fee *)

Lemma while_loop_fee (b r fee1 fee2 extra : float) (delta n : Z) (fuel : nat) :
  forall s1 s2, same_but_fee s1 s2 ->
  same_outcome same_but_fee
    (while_loop b r fee1 extra delta n fuel s1)
    (while_loop b r fee2 extra delta n fuel s2).
Proof.
  induction fuel as [|fuel IH]; intros s1 s2 (Hb & Hd & Hp & Hr).
  - simpl. unfold loop_guard. rewrite Hb, Hp.
    destruct (_ && _); simpl; [exact I|]. repeat split; assumption.
  - simpl. unfold loop_guard. rewrite Hb, Hp.
    destruct (_ && _); simpl; [|repeat split; assumption].
    rewrite !loop_body_spec, Hd.
    destruct (date_add_days (current_date s2) delta) as [d|e]; simpl;
      [|reflexivity].
    apply IH. unfold same_but_fee. simpl.
    rewrite Hb, Hp, !map_app, Hr. repeat split.
Qed.

Lemma trace_fee (b r fee extra : float) (delta : Z) (j : nat) p d b0 :
  Forall (fun x => Monthly_Fee x = round2 fee) (trace b r fee extra delta j p d b0).
Proof.
  revert p d b0. induction j as [|j IH]; intros; simpl; constructor; auto.
Qed.

(** C7. Two inputs that differ only in the fee have the same outcome: the
    same exception, or schedules with the same number of rows that agree
    row by row on period, date, base payment, extra payment, total payment
    excluding fees, interest, principal and balance, with the same returned
    base payment and period count; each row's fee field is the rounded
    fee of its own input. *)
Theorem fee_frame (float_pow : float -> Z -> result float)
    (principal apr : float) (years : Z) (freq : string) (start_date : date)
    (fee1 fee2 extra_per_period : float) :
  same_outcome
    (fun out1 out2 =>
       let '(rows1, bp1, per1) := out1 in
       let '(rows2, bp2, per2) := out2 in
       map fee_free rows1 = map fee_free rows2 /\
       List.length rows1 = List.length rows2 /\
       bp1 = bp2 /\ per1 = per2 /\
       Forall (fun x => Monthly_Fee x = round2 fee1) rows1 /\
       Forall (fun x => Monthly_Fee x = round2 fee2) rows2)
    (amortization_schedule float_pow principal apr years freq start_date
       fee1 extra_per_period)
    (amortization_schedule float_pow principal apr years freq start_date
       fee2 extra_per_period).
Proof.
  unfold amortization_schedule, amortization_schedule_fuel.
  destruct (periods_per_year freq) as [m|e]; simpl; [|reflexivity].
  destruct (rate_per_period apr m) as [r|e]; simpl; [|reflexivity].
  destruct (pmt float_pow r (years * m) principal) as [b|e]; simpl;
    [|reflexivity].
  destruct (period_delta freq) as [delta|e]; simpl; [|reflexivity].
  pose proof (while_loop_fee b r fee1 fee2 extra_per_period delta (years * m)
                (cap_fuel years)
                {| bal := principal; current_date := start_date;
                   period := 0; records := [] |}
                {| bal := principal; current_date := start_date;
                   period := 0; records := [] |}
                (conj eq_refl (conj eq_refl (conj eq_refl eq_refl)))) as Hrel.
  destruct (while_loop b r fee1 _ _ _ _ _) as [[st1|x1]|] eqn:W1;
    destruct (while_loop b r fee2 _ _ _ _ _) as [[st2|x2]|] eqn:W2;
    simpl in Hrel |- *; try contradiction; try exact Hrel.
  destruct Hrel as (_ & _ & Hp & Hr).
  split; [exact Hr|]. split.
  { rewrite <- (length_map fee_free (records st1)), Hr. apply length_map. }
  split; [reflexivity|]. split; [exact Hp|].
  apply while_loop_trace in W1, W2. simpl in W1, W2.
  destruct W1 as (k1 & _ & _ & _ & -> & _).
  destruct W2 as (k2 & _ & _ & _ & -> & _).
  split; apply trace_fee.
Qed.

(** ** A principal at or below the threshold *)

(** C9, as stated, fails: for a principal of 1e-6 at a zero rate over one
    yearly period the payment formula gives 1e-6, and the generator returns
    an empty schedule, period count 0 and base payment 0.0, the formula's
    value rounded to two decimals. *)
Lemma base_payment_is_rounded_at_threshold :
  (1e-6 <=? 1e-6)%float = true /\
  rate_per_period 0 1 = Ok 0%float /\
  pmt float_pow_cr 0 (1 * 1) 1e-6 = Ok 1e-6%float /\
  amortization_schedule float_pow_cr 1e-6 0 1 "Yearly" 739000 0 0
    = Some (Ok ([], 0%float, 0)) /\
  (0 =? 1e-6)%float = false.
Proof. vm_compute. repeat split. Qed.

(** C9, amended. For a principal that is at most 1e-6 the generator emits
    no row and returns period count 0 and the payment formula's result
    rounded to two decimals, whenever the frequency is known and the
    formula returns. *)
Theorem empty_schedule_at_threshold (float_pow : float -> Z -> result float)
    (principal apr : float) (years : Z) (freq : string) (start_date : date)
    (monthly_fee extra_per_period : float) (m : Z) (r b : float) :
  (principal <=? 1e-6)%float = true ->
  periods_per_year freq = Ok m ->
  rate_per_period apr m = Ok r ->
  pmt float_pow r (years * m) principal = Ok b ->
  amortization_schedule float_pow principal apr years freq start_date
    monthly_fee extra_per_period = Some (Ok ([], round2 b, 0)).
Proof.
  intros Hle Hm Hr Hb.
  unfold amortization_schedule, amortization_schedule_fuel.
  destruct (period_delta_defined freq m Hm) as [delta Hd].
  rewrite Hm. simpl. rewrite Hr. simpl. rewrite Hb. simpl. rewrite Hd. simpl.
  apply leb_not_ltb in Hle.
  destruct (cap_fuel years); simpl; unfold loop_guard; simpl; rewrite Hle;
    reflexivity.
Qed.

(** A zero principal, monthly over two years at 9.5 percent. *)
Lemma empty_schedule_at_threshold_witness :
  amortization_schedule float_pow_cr 0 9.5 2 "Monthly" 739000 0 0
    = Some (Ok ([], round2 0, 0)).
Proof.
  apply (empty_schedule_at_threshold float_pow_cr 0 9.5 2 "Monthly" 739000 0 0
           12 (9.5 / 100 / 12)%float 0%float);
    vm_compute; reflexivity.
Defined.

(** ** Rows and the balances they come from *)

Section RowFacts.

Variable float_pow : float -> Z -> result float.
Variables (principal apr : float) (years : Z) (freq : string) (start_date : date).
Variables (monthly_fee extra_per_period : float).
Variables (m : Z) (r b : float).
Variables (rows : list row) (bp : float) (per : Z).

Hypothesis Hm : periods_per_year freq = Ok m.
Hypothesis Hr : rate_per_period apr m = Ok r.
Hypothesis Hb : pmt float_pow r (years * m) principal = Ok b.
Hypothesis Hs :
  amortization_schedule float_pow principal apr years freq start_date
    monthly_fee extra_per_period = Some (Ok (rows, bp, per)).

Local Abbreviation B := (fun i => bal_after b r extra_per_period i principal).

(** Row [i] is the record of the period entered with balance [B i]. *)
Lemma row_of_schedule (i : nat) (x : row) :
  nth_error rows i = Some x ->
  exists delta,
    x = row_of b r monthly_fee extra_per_period
          (Z.of_nat i + 1) (start_date + Z.of_nat i * delta) (B i) /\
    (1e-6 <? B i)%float = true.
Proof.
  intros Hx. apply schedule_inv in Hs.
  destruct Hs as (m' & r' & b' & delta & Hm' & Hr' & Hb' & _ & _ & _ & Hrows & Hi & _).
  rewrite Hm in Hm'. injection Hm' as <-.
  rewrite Hr in Hr'. injection Hr' as <-.
  rewrite Hb in Hb'. injection Hb' as <-.
  assert (Hlt : (i < List.length rows)%nat)
    by (apply nth_error_Some; rewrite Hx; discriminate).
  rewrite Hrows, trace_nth in Hx by exact Hlt. injection Hx as <-.
  exists delta. split; [reflexivity|]. apply Hi, Hlt.
Qed.

(** The condition of the loop is false on the balance after the last row,
    or the cap is reached. *)
Lemma schedule_stops :
  per = Z.of_nat (List.length rows) /\
  ((1e-6 <? B (List.length rows))%float && (per <? 1000 * (years * m))) = false.
Proof.
  apply schedule_inv in Hs.
  destruct Hs as (m' & r' & b' & delta & Hm' & Hr' & Hb' & _ & _ & Hper & _ & _ & Hg).
  rewrite Hm in Hm'. injection Hm' as <-.
  rewrite Hr in Hr'. injection Hr' as <-.
  rewrite Hb in Hb'. injection Hb' as <-.
  split; assumption.
Qed.

(** A clamped period leaves a balance of exactly zero and is the last. *)
Lemma clamped_row_is_last (i : nat) (x : row) :
  nth_error rows i = Some x ->
  clamps b r extra_per_period (B i) = true ->
  B (S i) = 0%float /\ S i = List.length rows.
Proof.
  intros Hx Hc. destruct (row_of_schedule i x Hx) as (delta & _ & Hgt).
  assert (Hz : B (S i) = 0%float).
  { rewrite bal_after_S. unfold next_bal, principal_component_of. rewrite Hc.
    destruct (gt_eps_lt_finite _ _ Hgt Hc) as (mb & eb & Hfin).
    exact (sub_diag_finite _ _ _ _ Hfin). }
  split; [exact Hz|].
  assert (Hlt : (i < List.length rows)%nat)
    by (apply nth_error_Some; rewrite Hx; discriminate).
  destruct (Nat.eq_dec (S i) (List.length rows)) as [E|E]; [exact E|].
  destruct (nth_error rows (S i)) as [y|] eqn:Hy.
  - destruct (row_of_schedule (S i) y Hy) as (_ & _ & Hgt').
    rewrite Hz in Hgt'. vm_compute in Hgt'. discriminate.
  - apply nth_error_None in Hy. lia.
Qed.

End RowFacts.

Lemma round2_zero : round2 0 = 0%float.
Proof. vm_compute. reflexivity. Qed.

(** ** The final-period clamp *)

(** C5. In a returned schedule, a period whose computed principal component
    [(base - balance * r) + extra] exceeds the balance it starts with has
    its principal field equal to that balance (rounded), its total payment
    excluding fees equal to interest plus that balance (rounded), leaves a
    balance of exactly zero, stored as zero, and is the last row. *)
Theorem clamp_final_period (float_pow : float -> Z -> result float)
    (principal apr : float) (years : Z) (freq : string) (start_date : date)
    (monthly_fee extra_per_period : float) (m : Z) (r b : float)
    (rows : list row) (bp : float) (per : Z) (i : nat) (x : row) :
  periods_per_year freq = Ok m ->
  rate_per_period apr m = Ok r ->
  pmt float_pow r (years * m) principal = Ok b ->
  amortization_schedule float_pow principal apr years freq start_date
    monthly_fee extra_per_period = Some (Ok (rows, bp, per)) ->
  nth_error rows i = Some x ->
  let balance := bal_after b r extra_per_period i principal in
  (balance <? (b - balance * r) + extra_per_period)%float = true ->
  Principal x = round2 balance /\
  Payment_total_excl_fees x = round2 (balance * r + balance)%float /\
  bal_after b r extra_per_period (S i) principal = 0%float /\
  Balance x = 0%float /\
  nth_error rows (S i) = None /\
  per = Z.of_nat (S i).
Proof.
  intros Hm Hr Hb Hs Hx balance Hc.
  destruct (row_of_schedule float_pow _ _ _ _ _ _ _ _ _ _ _ _ _ Hm Hr Hb Hs i x Hx)
    as (delta & -> & _).
  destruct (clamped_row_is_last float_pow _ _ _ _ _ _ _ _ _ _ _ _ _ Hm Hr Hb Hs i _ Hx Hc)
    as [Hz Hlast].
  destruct (schedule_stops float_pow _ _ _ _ _ _ _ _ _ _ _ _ _ Hm Hr Hb Hs) as [Hper _].
  fold balance. cbn [row_of Principal Payment_total_excl_fees Balance].
  unfold principal_component_of, total_paid_of, clamps, principal_due, interest_of.
  fold balance. rewrite Hc.
  split; [reflexivity|]. split; [reflexivity|]. split; [exact Hz|]. split.
  - rewrite bal_after_S in Hz. fold balance in Hz.
    unfold next_bal, principal_component_of, clamps, principal_due, interest_of in *.
    rewrite Hc in *. rewrite Hz. exact round2_zero.
  - split; [apply nth_error_None; lia | lia].
Qed.

(** A principal of 100 at a zero rate over one yearly period with an extra
    payment of 50: the first period is clamped. *)
Lemma clamp_final_period_witness :
  exists x,
    amortization_schedule float_pow_cr 100 0 1 "Yearly" 739000 0 50
      = Some (Ok ([x], 100%float, 1)) /\
    (100 <? (100 - 100 * 0) + 50)%float = true /\
    Principal x = round2 100 /\
    Payment_total_excl_fees x = round2 (100 * 0 + 100)%float /\
    bal_after 100 0 50 1 100 = 0%float /\
    Balance x = 0%float /\
    nth_error [x] 1 = None /\
    1 = Z.of_nat 1.
Proof.
  eexists. split; [vm_compute; reflexivity|]. split; [reflexivity|].
  eapply (clamp_final_period float_pow_cr 100 0 1 "Yearly" 739000 0 50
            1 0%float 100%float _ 100%float 1 0);
    vm_compute; reflexivity.
Defined.

(** ** Interest, principal and total of a row *)

(** C4, as stated, fails.  With a principal of 0.75 over two yearly periods
    at an annual rate of 1e-8 percent (no power is computed on this path)
    the first of the two rows stores interest 0.0, principal 0.37 and total
    payment 0.38.  With a correctly rounded power, the third row of the
    schedule for 1,200,000 at 9.5 percent over 15 years, monthly, stores
    interest 9451.82, principal 3078.87 and total payment 12530.70. *)
Lemma rounded_parts_do_not_add_up :
  (exists x y,
     amortization_schedule float_pow_cr 0.75 1e-8 2 "Yearly" 739000 0 0
       = Some (Ok ([x; y], 0.38%float, 2)) /\
     Interest x = 0%float /\ Principal x = 0.37%float /\
     Payment_total_excl_fees x = 0.38%float /\
     (Interest x + Principal x =? Payment_total_excl_fees x)%float = false) /\
  (exists rows x,
     amortization_schedule float_pow_cr 1200000 9.5 15 "Monthly" 739000 0 0
       = Some (Ok (rows, 12530.7%float, 180)) /\
     nth_error rows 2 = Some x /\
     Interest x = 9451.82%float /\ Principal x = 3078.87%float /\
     Payment_total_excl_fees x = 12530.7%float /\
     (Interest x + Principal x =? Payment_total_excl_fees x)%float = false).
Proof.
  split.
  - do 2 eexists. split; [vm_compute; reflexivity|]. vm_compute. repeat split.
  - do 2 eexists. split; [vm_compute; reflexivity|]. vm_compute. repeat split.
Qed.

(** C4, amended. Each row stores three separately rounded amounts of the
    period, computed from the unrounded balance [B] the period starts with
    and the unrounded payment [b]: the interest [round(B * r, 2)]; in a
    period that is not clamped the principal [round((b - B * r) + extra, 2)]
    and the total [round(b + extra, 2)]; in a clamped period the principal
    [round(B, 2)] and the total [round(B * r + B, 2)].  Nothing relates the
    sum of the first two stored fields to the third. *)
Theorem row_amounts (float_pow : float -> Z -> result float)
    (principal apr : float) (years : Z) (freq : string) (start_date : date)
    (monthly_fee extra_per_period : float) (m : Z) (r b : float)
    (rows : list row) (bp : float) (per : Z) (i : nat) (x : row) :
  periods_per_year freq = Ok m ->
  rate_per_period apr m = Ok r ->
  pmt float_pow r (years * m) principal = Ok b ->
  amortization_schedule float_pow principal apr years freq start_date
    monthly_fee extra_per_period = Some (Ok (rows, bp, per)) ->
  nth_error rows i = Some x ->
  let balance := bal_after b r extra_per_period i principal in
  Interest x = round2 (balance * r)%float /\
  ((balance <? (b - balance * r) + extra_per_period)%float = false ->
   Principal x = round2 ((b - balance * r) + extra_per_period)%float /\
   Payment_total_excl_fees x = round2 (b + extra_per_period)%float) /\
  ((balance <? (b - balance * r) + extra_per_period)%float = true ->
   Principal x = round2 balance /\
   Payment_total_excl_fees x = round2 (balance * r + balance)%float).
Proof.
  intros Hm Hr Hb Hs Hx balance.
  destruct (row_of_schedule float_pow _ _ _ _ _ _ _ _ _ _ _ _ _ Hm Hr Hb Hs i x Hx)
    as (delta & -> & _).
  fold balance. cbn [row_of Interest Principal Payment_total_excl_fees].
  unfold principal_component_of, total_paid_of, clamps, principal_due, interest_of.
  split; [reflexivity|].
  split; intros ->; split; reflexivity.
Qed.

(** The first row of the schedule for 0.75 over two yearly periods at
    1e-8 percent. *)
Lemma row_amounts_witness :
  exists x y,
    amortization_schedule float_pow_cr 0.75 1e-8 2 "Yearly" 739000 0 0
      = Some (Ok ([x; y], 0.38%float, 2)) /\
    Interest x = round2 (0.75 * (1e-8 / 100 / 1))%float /\
    ((0.75 <? (0.375 - 0.75 * (1e-8 / 100 / 1)) + 0)%float = false ->
     Principal x = round2 ((0.375 - 0.75 * (1e-8 / 100 / 1)) + 0)%float /\
     Payment_total_excl_fees x = round2 (0.375 + 0)%float) /\
    ((0.75 <? (0.375 - 0.75 * (1e-8 / 100 / 1)) + 0)%float = true ->
     Principal x = round2 0.75 /\
     Payment_total_excl_fees x
       = round2 (0.75 * (1e-8 / 100 / 1) + 0.75)%float).
Proof.
  do 2 eexists. split; [vm_compute; reflexivity|].
  eapply (row_amounts float_pow_cr 0.75 1e-8 2 "Yearly" 739000 0 0
            1 (1e-8 / 100 / 1)%float 0.375%float _ 0.38%float 2 0);
    vm_compute; reflexivity.
Defined.

(** ** A balance that the payment does not reduce *)

Section FixedBalance.

Variables (base_payment r monthly_fee extra_per_period : float).
Variables (delta n : Z).

Local Abbreviation run := (while_loop base_payment r monthly_fee extra_per_period delta n).
Local Abbreviation step := (next_bal base_payment r extra_per_period).
Local Abbreviation rows_of := (trace base_payment r monthly_fee extra_per_period delta).

(** From a balance above 1e-6 that one period leaves as it is, the loop runs
    to the cap, as long as the dates stay in range. *)
Lemma while_loop_fixed (k : nat) :
  forall (fuel : nat) (st : loop_state),
  (k <= fuel)%nat ->
  (1e-6 <? bal st)%float = true ->
  step (bal st) = bal st ->
  period st + Z.of_nat k = 1000 * n ->
  0 <= delta -> 0 < current_date st ->
  current_date st + Z.of_nat k * delta <= MAXORDINAL ->
  run fuel st =
  Some (Ok {| bal := bal st;
              current_date := current_date st + Z.of_nat k * delta;
              period := 1000 * n;
              records := records st ++
                rows_of k (period st) (current_date st) (bal st) |}).
Proof.
  induction k as [|k IH]; intros fuel st Hfuel Hgt Hfix Hper Hdelta Hd0 Hdmax.
  - assert (Hg : loop_guard n st = false).
    { unfold loop_guard. rewrite Hgt. simpl. apply Z.ltb_ge. lia. }
    destruct st as [b0 d0 p0 rs]. simpl in *.
    replace (1000 * n) with p0 by lia.
    replace (d0 + Z.of_nat 0 * delta) with d0 by lia.
    rewrite app_nil_r.
    destruct fuel; simpl; rewrite Hg; reflexivity.
  - destruct fuel as [|fuel]; [lia|].
    assert (Hg : loop_guard n st = true).
    { unfold loop_guard. rewrite Hgt. simpl. apply Z.ltb_lt. lia. }
    simpl. rewrite Hg, loop_body_spec.
    unfold date_add_days.
    assert (H1 : (0 <? current_date st + delta) = true) by (apply Z.ltb_lt; lia).
    assert (H2 : (current_date st + delta <=? MAXORDINAL) = true)
      by (apply Z.leb_le; nia).
    rewrite H1, H2. simpl.
    rewrite IH; simpl; try rewrite Hfix; try assumption; try lia.
    rewrite <- app_assoc. simpl. do 3 f_equal. lia.
Qed.

Lemma trace_fixed (j : nat) p d b0 :
  step b0 = b0 ->
  Forall (fun x =>
            Balance x = round2 b0 /\
            Principal x =
              round2 (principal_component_of base_payment r extra_per_period b0))
         (rows_of j p d b0).
Proof.
  intros Hfix. revert p d. induction j as [|j IH]; intros p d; simpl.
  - constructor.
  - constructor.
    + simpl. rewrite Hfix. split; reflexivity.
    + rewrite Hfix. apply IH.
Qed.

End FixedBalance.

Lemma total_principal_zero (rows : list row) :
  Forall (fun x => Principal x = 0%float) rows -> total_principal rows = 0%float.
Proof.
  unfold total_principal. induction 1 as [|x rows Hx _ IH]; simpl.
  - reflexivity.
  - rewrite Hx. exact IH.
Qed.

(** The schedule of 1000 at 1200 percent a year, monthly over five years:
    the rate per period is 1, [(1 + 1) ** 60] is [2 ^ 60], the payment equals
    the interest, and each of the [1000 * 60] periods leaves the balance at
    1000. *)
Lemma schedule_at_1200_percent :
  amortization_schedule float_pow_cr 1000 1200 5 "Monthly" 739000 0 0 =
  Some (Ok (trace 1000 1 0 0 30 (cap_fuel 5) 0 739000 1000, 1000%float, 60000)).
Proof.
  unfold amortization_schedule, amortization_schedule_fuel.
  match goal with
  | |- match ?prelude with Ok _ => _ | Raise _ => _ end = _ =>
      replace prelude
        with (@Ok (Z * float * float * Z) (60, 1%float, 1000%float, 30))
        by (vm_compute; reflexivity)
  end.
  cbv beta iota.
  rewrite (while_loop_fixed 1000 1 0 0 30 60 (cap_fuel 5)); cbn [bal period current_date records].
  - reflexivity.
  - apply Nat.le_refl.
  - reflexivity.
  - vm_compute. reflexivity.
  - unfold cap_fuel. rewrite Z2Nat.id; lia.
  - lia.
  - lia.
  - unfold cap_fuel, MAXORDINAL. rewrite Z2Nat.id; lia.
Qed.

(** With a correctly rounded power, 1000 at 2250 percent a year, monthly
    over five years: [(1 + 1.875) ** 60] exceeds [2 ^ 53], the payment is
    the double just below the first interest of 1875, and the balance
    grows; the row of period 23 stores 1000.0 and that of period 24
    stores 1000.01. *)
Lemma balance_grows_at_2250_percent :
  exists rows bp per x y,
    amortization_schedule float_pow_cr 1000 2250 5 "Monthly" 739000 0 0
      = Some (Ok (rows, bp, per)) /\
    nth_error rows 22 = Some x /\ nth_error rows 23 = Some y /\
    Balance x = 1000%float /\ Balance y = 1000.01%float /\
    (Balance x <? Balance y)%float = true.
Proof.
  assert (Hm : periods_per_year "Monthly" = Ok 12) by reflexivity.
  assert (Hr : rate_per_period 2250 12 = Ok 1.875%float)
    by (vm_compute; reflexivity).
  assert (Hb : pmt float_pow_cr 1.875 (5 * 12) 1000 = Ok 0x1.d4bffffffffffp+10%float)
    by (vm_compute; reflexivity).
  destruct (schedule_returns float_pow_cr 1000 2250 5 "Monthly" 739000 0 0
              12 1.875%float _ 30 Hm Hr Hb eq_refl) as (rows & per & Hs);
    [lia | unfold MAXORDINAL; lia |].
  pose proof (schedule_stops float_pow_cr _ _ _ _ _ _ _ _ _ _ _ _ _ Hm Hr Hb Hs)
    as [Hper Hg].
  assert (Hlen : (24 <= List.length rows)%nat).
  { destruct (le_lt_dec 24 (List.length rows)) as [H|H]; [exact H|].
    exfalso. rewrite Hper in Hg.
    assert (Hp : (Z.of_nat (List.length rows) <? 1000 * (5 * 12)) = true)
      by (apply Z.ltb_lt; lia).
    rewrite Hp, andb_true_r in Hg. revert Hg H.
    generalize (List.length rows). intros j Hg Hj.
    do 24 (destruct j as [|j]; [vm_compute in Hg; discriminate|]). lia. }
  destruct (nth_error rows 22) as [x|] eqn:Hx;
    [|apply nth_error_None in Hx; lia].
  destruct (nth_error rows 23) as [y|] eqn:Hy;
    [|apply nth_error_None in Hy; lia].
  exists rows, (round2 0x1.d4bffffffffffp+10), per, x, y. split; [exact Hs|].
  split; [exact Hx|]. split; [exact Hy|].
  destruct (row_of_schedule float_pow_cr _ _ _ _ _ _ _ _ _ _ _ _ _ Hm Hr Hb Hs _ _ Hx)
    as (d1 & -> & _).
  destruct (row_of_schedule float_pow_cr _ _ _ _ _ _ _ _ _ _ _ _ _ Hm Hr Hb Hs _ _ Hy)
    as (d2 & -> & _).
  cbn [row_of Balance]. vm_compute. repeat split.
Qed.

(** ** The balance column *)

(** C2, as stated, fails.  At 1200 percent a year, monthly over five years,
    on a principal of 1000, the payment equals the interest of each period;
    the generator returns [1000 * 60] rows, every one of them, the last
    included, with a balance of 1000.  At 2250 percent, with a correctly
    rounded power, the stored balance rises from one row to the next. *)
Lemma balance_stays_or_grows :
  (exists rows,
     amortization_schedule float_pow_cr 1000 1200 5 "Monthly" 739000 0 0
       = Some (Ok (rows, 1000%float, 60000)) /\
     Z.of_nat (List.length rows) = 60000 /\
     Forall (fun x => Balance x = 1000%float) rows /\
     (1000 =? 0)%float = false) /\
  (exists rows bp per x y,
     amortization_schedule float_pow_cr 1000 2250 5 "Monthly" 739000 0 0
       = Some (Ok (rows, bp, per)) /\
     nth_error rows 22 = Some x /\ nth_error rows 23 = Some y /\
     Balance x = 1000%float /\ Balance y = 1000.01%float /\
     (Balance x <? Balance y)%float = true).
Proof.
  split; [|exact balance_grows_at_2250_percent].
  exists (trace 1000 1 0 0 30 (cap_fuel 5) 0 739000 1000).
  split; [exact schedule_at_1200_percent|]. split.
  - rewrite trace_length. unfold cap_fuel. rewrite Z2Nat.id; lia.
  - split; [|reflexivity].
    eapply Forall_impl; [|apply trace_fixed; vm_compute; reflexivity].
    intros x [Hx _]. rewrite Hx. vm_compute. reflexivity.
Qed.

(** C2, amended. In a returned schedule every row stores the rounded
    balance its period leaves; that balance is the one before minus a
    principal component that does not exceed it (the balance itself when
    the period is clamped), so it is a NaN or not negative.  When the
    generator returns fewer periods than the cap [1000 * n], the balance
    left at the end is not above 1e-6 and the last row stores a zero
    balance, unless that balance is a NaN. *)
Theorem balance_column (float_pow : float -> Z -> result float)
    (principal apr : float) (years : Z) (freq : string) (start_date : date)
    (monthly_fee extra_per_period : float) (m : Z) (r b : float)
    (rows : list row) (bp : float) (per : Z) :
  periods_per_year freq = Ok m ->
  rate_per_period apr m = Ok r ->
  pmt float_pow r (years * m) principal = Ok b ->
  amortization_schedule float_pow principal apr years freq start_date
    monthly_fee extra_per_period = Some (Ok (rows, bp, per)) ->
  let B := fun i => bal_after b r extra_per_period i principal in
  (forall i x, nth_error rows i = Some x ->
     let due := ((b - B i * r) + extra_per_period)%float in
     let component := if (B i <? due)%float then B i else due in
     Balance x = round2 (B (S i)) /\
     B (S i) = (B i - component)%float /\
     (B i <? component)%float = false /\
     (B (S i) = nan \/ (0 <=? B (S i))%float = true)) /\
  (per < 1000 * (years * m) ->
     (1e-6 <? B (List.length rows))%float = false /\
     forall x, nth_error rows (pred (List.length rows)) = Some x ->
       B (List.length rows) = nan \/ (Balance x =? 0)%float = true).
Proof.
  intros Hm Hr Hb Hs B.
  assert (Hrow : forall i x, nth_error rows i = Some x ->
     let due := ((b - B i * r) + extra_per_period)%float in
     let component := if (B i <? due)%float then B i else due in
     Balance x = round2 (B (S i)) /\
     B (S i) = (B i - component)%float /\
     (B i <? component)%float = false /\
     (B (S i) = nan \/ (0 <=? B (S i))%float = true)).
  { intros i x Hx due component.
    destruct (row_of_schedule float_pow _ _ _ _ _ _ _ _ _ _ _ _ _ Hm Hr Hb Hs i x Hx)
      as (delta & -> & Hgt).
    assert (Hstep : B (S i) = (B i - component)%float).
    { unfold B. rewrite bal_after_S. reflexivity. }
    assert (Hle : (B i <? component)%float = false).
    { unfold component. destruct (B i <? due)%float eqn:Hc;
        [apply ltb_irrefl | exact Hc]. }
    split; [|split; [exact Hstep|split; [exact Hle|]]].
    - cbn [row_of Balance]. unfold B. rewrite bal_after_S. reflexivity.
    - rewrite Hstep. apply sub_nonneg; assumption. }
  split; [exact Hrow|].
  intros Hcap.
  destruct (schedule_stops float_pow _ _ _ _ _ _ _ _ _ _ _ _ _ Hm Hr Hb Hs)
    as [Hper Hg].
  apply Z.ltb_lt in Hcap. rewrite Hcap, andb_true_r in Hg.
  split; [exact Hg|].
  intros x Hx.
  assert (Hlen : S (pred (List.length rows)) = List.length rows).
  { assert ((pred (List.length rows) < List.length rows)%nat)
      by (apply nth_error_Some; rewrite Hx; discriminate).
    lia. }
  destruct (Hrow _ _ Hx) as (Hbal & _ & _ & Hsign).
  rewrite Hlen in Hbal, Hsign.
  destruct Hsign as [Hnan|Hpos]; [left; exact Hnan|right].
  rewrite Hbal. apply round2_small; assumption.
Qed.

(** Three yearly periods at a zero rate on a principal of 1. *)
Lemma balance_column_witness :
  exists rows,
    amortization_schedule float_pow_cr 1 0 3 "Yearly" 739000 0 0
      = Some (Ok (rows, 0.33%float, 3)) /\
    let B := fun i => bal_after (1 / 3) 0 0 i 1 in
    (forall i x, nth_error rows i = Some x ->
       let due := ((1 / 3 - B i * 0) + 0)%float in
       let component := if (B i <? due)%float then B i else due in
       Balance x = round2 (B (S i)) /\
       B (S i) = (B i - component)%float /\
       (B i <? component)%float = false /\
       (B (S i) = nan \/ (0 <=? B (S i))%float = true)) /\
    (3 < 1000 * (3 * 1) ->
       (1e-6 <? B (List.length rows))%float = false /\
       forall x, nth_error rows (pred (List.length rows)) = Some x ->
         B (List.length rows) = nan \/ (Balance x =? 0)%float = true).
Proof.
  eexists. split; [vm_compute; reflexivity|].
  eapply (balance_column float_pow_cr 1 0 3 "Yearly" 739000 0 0
            1 0%float (1 / 3)%float _ 0.33%float 3);
    vm_compute; reflexivity.
Defined.

(** ** The principal column *)

(** C3, as stated, fails on the same loan, whose rate per period is 1 and
    whose period count is 60: every row stores a principal of 0, the column
    sums to 0, and 0 is more than [0.01 * 60000] away from the principal of
    1000. *)
Lemma principal_unpaid_at_cap :
  rate_per_period 1200 12 = Ok 1%float /\ (0 <? 1)%float = true /\ 0 < 5 * 12 /\
  exists rows,
    amortization_schedule float_pow_cr 1000 1200 5 "Monthly" 739000 0 0
      = Some (Ok (rows, 1000%float, 60000)) /\
    Z.of_nat (List.length rows) = 60000 /\
    Forall (fun x => Principal x = 0%float) rows /\
    total_principal rows = 0%float /\
    (abs (total_principal rows - 1000) <=? 0.01 * 60000)%float = false.
Proof.
  split; [vm_compute; reflexivity|]. split; [reflexivity|]. split; [lia|].
  exists (trace 1000 1 0 0 30 (cap_fuel 5) 0 739000 1000).
  assert (Hzero : Forall (fun x => Principal x = 0%float)
                    (trace 1000 1 0 0 30 (cap_fuel 5) 0 739000 1000)).
  { eapply Forall_impl; [|apply trace_fixed; vm_compute; reflexivity].
    intros x [_ Hx]. rewrite Hx. vm_compute. reflexivity. }
  split; [exact schedule_at_1200_percent|]. split.
  - rewrite trace_length. unfold cap_fuel. rewrite Z2Nat.id; lia.
  - split; [exact Hzero|].
    rewrite (total_principal_zero _ Hzero). split; reflexivity.
Qed.

(** C3, amended. In a returned schedule the unrounded balances start at the
    principal; the principal field of each row is the rounded amount that
    the period subtracts from the balance, the balance itself in a clamped
    period and [(b - balance * r) + extra] otherwise; and when the generator
    returns fewer periods than the cap [1000 * n] the balance left after
    these subtractions is not above 1e-6. *)
Theorem principal_column (float_pow : float -> Z -> result float)
    (principal apr : float) (years : Z) (freq : string) (start_date : date)
    (monthly_fee extra_per_period : float) (m : Z) (r b : float)
    (rows : list row) (bp : float) (per : Z) :
  periods_per_year freq = Ok m ->
  rate_per_period apr m = Ok r ->
  pmt float_pow r (years * m) principal = Ok b ->
  amortization_schedule float_pow principal apr years freq start_date
    monthly_fee extra_per_period = Some (Ok (rows, bp, per)) ->
  let B := fun i => bal_after b r extra_per_period i principal in
  B O = principal /\
  (forall i x, nth_error rows i = Some x ->
     let due := ((b - B i * r) + extra_per_period)%float in
     let paid := if (B i <? due)%float then B i else due in
     Principal x = round2 paid /\ B (S i) = (B i - paid)%float) /\
  (per < 1000 * (years * m) ->
     (1e-6 <? B (List.length rows))%float = false).
Proof.
  intros Hm Hr Hb Hs B. split; [reflexivity|]. split.
  - intros i x Hx due paid.
    destruct (row_of_schedule float_pow _ _ _ _ _ _ _ _ _ _ _ _ _ Hm Hr Hb Hs i x Hx)
      as (delta & -> & _).
    split; [reflexivity|]. unfold B. rewrite bal_after_S. reflexivity.
  - intros Hcap.
    destruct (schedule_stops float_pow _ _ _ _ _ _ _ _ _ _ _ _ _ Hm Hr Hb Hs)
      as [_ Hg].
    apply Z.ltb_lt in Hcap. rewrite Hcap, andb_true_r in Hg. exact Hg.
Qed.

(** Two years, monthly, at 9.5 percent on a principal of 1000. *)
Lemma principal_column_witness :
  exists rows bp b,
    amortization_schedule float_pow_cr 1000 9.5 2 "Monthly" 739000 0 0
      = Some (Ok (rows, bp, 24)) /\
    pmt float_pow_cr (9.5 / 100 / 12) (2 * 12) 1000 = Ok b /\
    let B := fun i => bal_after b (9.5 / 100 / 12) 0 i 1000 in
    B O = 1000%float /\
    (forall i x, nth_error rows i = Some x ->
       let due := ((b - B i * (9.5 / 100 / 12)) + 0)%float in
       let paid := if (B i <? due)%float then B i else due in
       Principal x = round2 paid /\ B (S i) = (B i - paid)%float) /\
    (24 < 1000 * (2 * 12) -> (1e-6 <? B (List.length rows))%float = false).
Proof.
  do 3 eexists. split; [vm_compute; reflexivity|].
  split; [vm_compute; reflexivity|].
  eapply (principal_column float_pow_cr 1000 9.5 2 "Monthly" 739000 0 0
            12 (9.5 / 100 / 12)%float _ _ _ 24);
    vm_compute; reflexivity.
Defined.

(** ** The returned base payment *)

(** C10. The base payment a schedule is returned with is the payment
    formula's result [b] rounded to two decimals, and so is the base payment
    field of every row; the rows themselves are the records of consecutive
    periods computed with the unrounded [b].  Computing them with the
    returned value instead can give other rows: for a principal of 1 over
    three yearly periods at a zero rate the second row would store a
    balance of 0.34 where the schedule stores 0.33. *)
Theorem base_payment_rounded_on_return :
  (forall (float_pow : float -> Z -> result float)
      (principal apr : float) (years : Z) (freq : string) (start_date : date)
      (monthly_fee extra_per_period : float) rows bp per,
     amortization_schedule float_pow principal apr years freq start_date
       monthly_fee extra_per_period = Some (Ok (rows, bp, per)) ->
     exists m r b delta,
       periods_per_year freq = Ok m /\
       rate_per_period apr m = Ok r /\
       pmt float_pow r (years * m) principal = Ok b /\
       period_delta freq = Ok delta /\
       bp = round2 b /\
       rows = trace b r monthly_fee extra_per_period delta
                (List.length rows) 0 start_date principal /\
       Forall (fun x => Payment_base x = bp) rows) /\
  (exists rows bp b x y,
     amortization_schedule float_pow_cr 1 0 3 "Yearly" 739000 0 0
       = Some (Ok (rows, bp, 3)) /\
     pmt float_pow_cr 0 (3 * 1) 1 = Ok b /\
     bp = round2 b /\
     nth_error rows 1 = Some x /\
     nth_error (trace bp 0 0 0 365 (List.length rows) 0 739000 1) 1
       = Some y /\
     Balance x = 0.33%float /\ Balance y = 0.34%float /\
     (Balance x =? Balance y)%float = false).
Proof.
  split.
  - intros float_pow principal apr years freq start_date monthly_fee
      extra_per_period rows bp per Hs.
    apply schedule_inv in Hs.
    destruct Hs as (m & r & b & delta & Hm & Hr & Hb & Hd & Hbp & _ & Hrows & _).
    exists m, r, b, delta. do 5 (split; [assumption|]). split; [exact Hrows|].
    rewrite Hrows, Hbp. generalize (List.length rows) 0 start_date principal.
    intros j. induction j as [|j IH]; intros p d b0; simpl; constructor; auto.
  - do 5 eexists. split; [vm_compute; reflexivity|].
    split; [vm_compute; reflexivity|].
    split; [vm_compute; reflexivity|].
    split; [vm_compute; reflexivity|].
    split; [vm_compute; reflexivity|].
    vm_compute. repeat split.
Qed.

(** Three yearly periods at a zero rate on a principal of 1. *)
Lemma base_payment_rounded_on_return_witness :
  exists rows m r b delta,
    amortization_schedule float_pow_cr 1 0 3 "Yearly" 739000 0 0
      = Some (Ok (rows, 0.33%float, 3)) /\
    periods_per_year "Yearly" = Ok m /\
    rate_per_period 0 m = Ok r /\
    pmt float_pow_cr r (3 * m) 1 = Ok b /\
    period_delta "Yearly" = Ok delta /\
    0.33%float = round2 b /\
    rows = trace b r 0 0 delta (List.length rows) 0 739000 1 /\
    Forall (fun x => Payment_base x = 0.33%float) rows.
Proof.
  eexists.
  assert (H : amortization_schedule float_pow_cr 1 0 3 "Yearly" 739000 0 0
              = Some (Ok (_, 0.33%float, 3))) by (vm_compute; reflexivity).
  destruct (proj1 base_payment_rounded_on_return _ _ _ _ _ _ _ _ _ _ _ H)
    as (m & r & b & delta & Hrest).
  exists m, r, b, delta. split; [exact H | exact Hrest].
Defined.

(** ** More on the schedule generator *)

(** For a known frequency the rate of line 59 is computed without an
    exception. *)
Lemma rate_per_period_known (freq : string) (m : Z) (apr : float) :
  periods_per_year freq = Ok m ->
  exists mf, float_of_int m = Ok mf /\ (mf =? 0)%float = false /\
             rate_per_period apr m = Ok (apr / 100 / mf)%float.
Proof.
  intros Hm. apply periods_per_year_cases in Hm.
  assert (H100 : truediv apr 100 = Ok (apr / 100)%float) by reflexivity.
  unfold rate_per_period. rewrite H100. cbn [bind]. unfold truediv_int.
  destruct Hm as [->|[->| ->]].
  - exists 12%float. repeat split.
  - exists 4%float. repeat split.
  - exists 1%float. repeat split.
Qed.

Lemma sub_zero_r (x : float) : (x - 0)%float = x.
Proof.
  apply Prim2SF_inj. rewrite sub_spec, Prim2SF_zero.
  destruct (Prim2SF x) as [s|s| |s m e]; try reflexivity.
  destruct s; reflexivity.
Qed.

Lemma add_zero_r (x : float) : x <> neg_zero -> (x + 0)%float = x.
Proof.
  intros Hx. apply Prim2SF_inj. rewrite add_spec, Prim2SF_zero.
  destruct (Prim2SF x) as [s|s| |s m e] eqn:E; try reflexivity.
  destruct s; [|reflexivity].
  exfalso. apply Hx. apply Prim2SF_inj. rewrite E. reflexivity.
Qed.

Lemma add_zero_l_pos (x : float) m e :
  Prim2SF x = S754_finite false m e -> (0 + x)%float = x.
Proof.
  intros E. apply Prim2SF_inj. rewrite add_spec, Prim2SF_zero, E. reflexivity.
Qed.

Lemma mul_zero_r_pos (x : float) m e :
  Prim2SF x = S754_finite false m e -> (x * 0)%float = 0%float.
Proof.
  intros E. apply Prim2SF_inj. rewrite mul_spec, Prim2SF_zero, E. reflexivity.
Qed.

(** A balance above 1e-6 is a positive finite number or the infinity. *)
Lemma gt_eps_cases (b : float) :
  (1e-6 <? b)%float = true ->
  (exists m e, Prim2SF b = S754_finite false m e) \/ b = infinity.
Proof.
  rewrite ltb_spec, Prim2SF_eps. unfold SFltb.
  destruct (Prim2SF b) as [s|s| |s m e] eqn:E; simpl; try discriminate.
  - destruct s; [discriminate|]. intros _. right.
    apply Prim2SF_inj. rewrite E. reflexivity.
  - destruct s; [discriminate|]. intros _. left. eauto.
Qed.

(** The loop raises nothing but the [OverflowError] of a date. *)
Lemma while_loop_raises (b r fee extra : float) (delta n : Z) (fuel : nat) :
  forall st e,
  while_loop b r fee extra delta n fuel st = Some (Raise e) ->
  e = OverflowError.
Proof.
  induction fuel as [|fuel IH]; intros st e; simpl.
  - destruct (loop_guard n st); discriminate.
  - destruct (loop_guard n st); [|discriminate].
    rewrite loop_body_spec. unfold date_add_days.
    destruct (_ && _); simpl; [apply IH|]. intros [= <-]. reflexivity.
Qed.

(** [k] periods whose loop condition holds and whose dates stay in range
    are run one after the other. *)
Lemma while_loop_run (b r fee extra : float) (delta n : Z) (k : nat) :
  forall (fuel : nat) (st : loop_state),
  (forall i, (i < k)%nat ->
     (1e-6 <? bal_after b r extra i (bal st))%float = true /\
     period st + Z.of_nat i < 1000 * n /\
     0 < current_date st + Z.of_nat (S i) * delta <= MAXORDINAL) ->
  while_loop b r fee extra delta n (k + fuel) st =
  while_loop b r fee extra delta n fuel
    {| bal := bal_after b r extra k (bal st);
       current_date := current_date st + Z.of_nat k * delta;
       period := period st + Z.of_nat k;
       records := records st ++
         trace b r fee extra delta k (period st) (current_date st) (bal st) |}.
Proof.
  induction k as [|k IH]; intros fuel st Hk.
  - destruct st as [b0 d0 p0 rs]. simpl.
    replace (d0 + Z.of_nat 0 * delta) with d0 by lia.
    replace (p0 + Z.of_nat 0) with p0 by lia.
    rewrite app_nil_r. reflexivity.
  - destruct (Hk O ltac:(lia)) as (H1 & H2 & H3). simpl in H1.
    change (S k + fuel)%nat with (S (k + fuel)). cbn [while_loop].
    unfold loop_guard at 1. rewrite H1.
    replace (period st <? 1000 * n) with true by (symmetry; apply Z.ltb_lt; lia).
    cbn [andb]. rewrite loop_body_spec. unfold date_add_days.
    replace (0 <? current_date st + delta) with true
      by (symmetry; apply Z.ltb_lt; lia).
    replace (current_date st + delta <=? MAXORDINAL) with true
      by (symmetry; apply Z.leb_le; lia).
    cbn [andb bind]. rewrite IH.
    + cbn [bal current_date period records bal_after trace].
      rewrite <- app_assoc. cbn [app].
      do 2 f_equal; lia.
    + intros i Hi. cbn [bal current_date period].
      destruct (Hk (S i) ltac:(lia)) as (G1 & G2 & G3). simpl in G1.
      split; [exact G1|]. split; lia.
Qed.

(** ** Exceptions *)

(** X1. A frequency other than "Monthly", "Quarterly" and "Yearly" makes the
    generator raise [KeyError], whatever the other arguments are. *)
Theorem unknown_frequency_raises (float_pow : float -> Z -> result float)
    (principal apr : float) (years : Z) (freq : string) (start_date : date)
    (monthly_fee extra_per_period : float) :
  freq <> "Monthly"%string -> freq <> "Quarterly"%string ->
  freq <> "Yearly"%string ->
  amortization_schedule float_pow principal apr years freq start_date
    monthly_fee extra_per_period = Some (Raise KeyError).
Proof.
  intros H1 H2 H3. unfold amortization_schedule, amortization_schedule_fuel,
    periods_per_year.
  apply String.eqb_neq in H1, H2, H3. rewrite H1, H2, H3. reflexivity.
Qed.

Lemma unknown_frequency_raises_witness :
  amortization_schedule float_pow_cr 1000 9.5 2 "Weekly" 739000 0 0
    = Some (Raise KeyError).
Proof.
  apply (unknown_frequency_raises float_pow_cr 1000 9.5 2 "Weekly" 739000 0 0);
    discriminate.
Defined.

(** X2. The exceptions of the generator: [KeyError] for an unknown
    frequency, what the payment formula raises, or the [OverflowError] of a
    date; nothing else. *)
Theorem schedule_exceptions (float_pow : float -> Z -> result float)
    (principal apr : float) (years : Z) (freq : string) (start_date : date)
    (monthly_fee extra_per_period : float) (e : exn) :
  amortization_schedule float_pow principal apr years freq start_date
    monthly_fee extra_per_period = Some (Raise e) ->
  (periods_per_year freq = Raise KeyError /\ e = KeyError) \/
  (exists m r, periods_per_year freq = Ok m /\ rate_per_period apr m = Ok r /\
               pmt float_pow r (years * m) principal = Raise e) \/
  (exists m r b, periods_per_year freq = Ok m /\ rate_per_period apr m = Ok r /\
                 pmt float_pow r (years * m) principal = Ok b /\
                 e = OverflowError).
Proof.
  unfold amortization_schedule, amortization_schedule_fuel.
  destruct (periods_per_year freq) as [m|e0] eqn:Hm; simpl.
  - destruct (rate_per_period_known freq m apr Hm) as (mf & _ & _ & Hr).
    rewrite Hr. simpl.
    destruct (pmt float_pow _ (years * m) principal) as [b|e1] eqn:Hb; simpl.
    + destruct (period_delta_defined freq m Hm) as [delta Hd]. rewrite Hd. simpl.
      destruct (while_loop _ _ _ _ _ _ _ _) as [[st|e2]|] eqn:W; try discriminate.
      intros [= <-]. apply while_loop_raises in W.
      right. right. exists m, (apr / 100 / mf)%float, b. auto.
    + intros [= <-]. right. left. exists m, (apr / 100 / mf)%float. auto.
  - intros [= <-]. left.
    assert (E : e0 = KeyError).
    { unfold periods_per_year in Hm.
      destruct (String.eqb freq "Monthly"); [discriminate|].
      destruct (String.eqb freq "Quarterly"); [discriminate|].
      destruct (String.eqb freq "Yearly"); [discriminate|]. congruence. }
    subst e0. split; reflexivity.
Qed.

Lemma schedule_exceptions_witness :
  (periods_per_year "Weekly" = Raise KeyError /\ KeyError = KeyError) \/
  (exists m r, periods_per_year "Weekly" = Ok m /\ rate_per_period 9.5 m = Ok r /\
               pmt float_pow_cr r (2 * m) 1000 = Raise KeyError) \/
  (exists m r b, periods_per_year "Weekly" = Ok m /\ rate_per_period 9.5 m = Ok r /\
                 pmt float_pow_cr r (2 * m) 1000 = Ok b /\
                 KeyError = OverflowError).
Proof.
  apply (schedule_exceptions float_pow_cr 1000 9.5 2 "Weekly" 739000 0 0).
  reflexivity.
Defined.

(** X3. With a known frequency and a payment formula that returns, a start
    date after which [1000 * n] periods still fit before [date.max] rules
    every exception out: a schedule is returned, with the rounded payment
    and as many periods as rows. *)
Theorem no_exception_within_date_range
    (float_pow : float -> Z -> result float)
    (principal apr : float) (years : Z) (freq : string) (start_date : date)
    (monthly_fee extra_per_period : float) (m : Z) (r b : float) :
  periods_per_year freq = Ok m ->
  rate_per_period apr m = Ok r ->
  pmt float_pow r (years * m) principal = Ok b ->
  0 < start_date ->
  start_date + 1000 * (years * m) *
    (if String.eqb freq "Monthly" then 30
     else if String.eqb freq "Quarterly" then 91 else 365) <= MAXORDINAL ->
  exists rows,
    amortization_schedule float_pow principal apr years freq start_date
      monthly_fee extra_per_period
    = Some (Ok (rows, round2 b, Z.of_nat (List.length rows))).
Proof.
  intros Hm Hr Hb H0 Hmax.
  destruct (period_delta_defined freq m Hm) as [delta Hd].
  pose proof (period_delta_cases freq delta Hd) as Ed. rewrite <- Ed in Hmax.
  destruct (schedule_returns float_pow principal apr years freq start_date
              monthly_fee extra_per_period m r b delta Hm Hr Hb Hd H0 Hmax)
    as (rows & per & Hs).
  exists rows. rewrite Hs.
  destruct (schedule_stops float_pow _ _ _ _ _ _ _ _ _ _ _ _ _ Hm Hr Hb Hs)
    as [-> _].
  reflexivity.
Qed.

Lemma no_exception_within_date_range_witness :
  exists rows,
    amortization_schedule float_pow_cr 1000 0 2 "Quarterly" 739000 0 0
    = Some (Ok (rows, round2 125, Z.of_nat (List.length rows))).
Proof.
  apply (no_exception_within_date_range float_pow_cr 1000 0 2 "Quarterly"
           739000 0 0 4 0%float 125%float);
    first [vm_compute; reflexivity | vm_compute; discriminate].
Defined.

Lemma period_delta_pos (freq : string) (delta : Z) :
  period_delta freq = Ok delta -> 0 < delta.
Proof.
  intros H. apply period_delta_cases in H. subst delta.
  destruct (String.eqb freq "Monthly"); [lia|].
  destruct (String.eqb freq "Quarterly"); lia.
Qed.

(** X4. The date is advanced once more after the last row.  When the loop
    reaches period [k + 1] (the condition holds on the first [k + 1]
    balances), the date of that period's row is valid, and the next date
    would pass [date.max], the generator raises [OverflowError] and returns
    no schedule. *)
Theorem date_overflow_after_valid_row
    (float_pow : float -> Z -> result float)
    (principal apr : float) (years : Z) (freq : string) (start_date : date)
    (monthly_fee extra_per_period : float) (m : Z) (r b : float)
    (delta : Z) (k : nat) :
  periods_per_year freq = Ok m ->
  rate_per_period apr m = Ok r ->
  pmt float_pow r (years * m) principal = Ok b ->
  period_delta freq = Ok delta ->
  (forall i, (i <= k)%nat ->
     (1e-6 <? bal_after b r extra_per_period i principal)%float = true) ->
  Z.of_nat k < 1000 * (years * m) ->
  0 < start_date ->
  start_date + Z.of_nat k * delta <= MAXORDINAL ->
  MAXORDINAL < start_date + (Z.of_nat k + 1) * delta ->
  amortization_schedule float_pow principal apr years freq start_date
    monthly_fee extra_per_period = Some (Raise OverflowError).
Proof.
  intros Hm Hr Hb Hd Hbal Hk H0 Hrow Hnext.
  pose proof (period_delta_pos freq delta Hd) as Hpos.
  unfold amortization_schedule, amortization_schedule_fuel.
  rewrite Hm. simpl. rewrite Hr. simpl. rewrite Hb. simpl. rewrite Hd. simpl.
  assert (Hfuel : exists f, cap_fuel years = (k + S f)%nat).
  { exists (cap_fuel years - S k)%nat. unfold cap_fuel.
    apply periods_per_year_cases in Hm. destruct Hm as [->|[->| ->]]; lia. }
  destruct Hfuel as [f ->].
  rewrite while_loop_run.
  - cbn [while_loop bal period current_date records].
    unfold loop_guard. cbn [bal period].
    rewrite (Hbal k (Nat.le_refl k)).
    replace (0 + Z.of_nat k <? 1000 * (years * m)) with true
      by (symmetry; apply Z.ltb_lt; lia).
    cbn [andb]. rewrite loop_body_spec. cbn [current_date].
    unfold date_add_days.
    replace (start_date + Z.of_nat k * delta + delta <=? MAXORDINAL) with false
      by (symmetry; apply Z.leb_gt; lia).
    rewrite andb_false_r. reflexivity.
  - intros i Hi. cbn [bal period current_date].
    split; [apply Hbal; lia|]. split; [lia|]. nia.
Qed.

(** One yearly period starting on [date.max]. *)
Lemma date_overflow_after_valid_row_witness :
  amortization_schedule float_pow_cr 1000 0 1 "Yearly" MAXORDINAL 0 0
    = Some (Raise OverflowError).
Proof.
  apply (date_overflow_after_valid_row float_pow_cr 1000 0 1 "Yearly"
           MAXORDINAL 0 0 1 0%float 1000%float 365 0);
    try (vm_compute; reflexivity); try (vm_compute; discriminate).
  intros i Hi. assert (i = O) by lia. subst i. vm_compute. reflexivity.
Defined.

(** X5. A term of zero years gives, for every known frequency and whatever
    the principal and the rate, an empty schedule with base payment 0.0 and
    period count 0; the power is not computed. *)
Theorem zero_years_empty (float_pow : float -> Z -> result float)
    (principal apr : float) (freq : string) (start_date : date)
    (monthly_fee extra_per_period : float) (m : Z) :
  periods_per_year freq = Ok m ->
  amortization_schedule float_pow principal apr 0 freq start_date
    monthly_fee extra_per_period = Some (Ok ([], 0%float, 0)).
Proof.
  intros Hm.
  destruct (rate_per_period_known freq m apr Hm) as (mf & _ & _ & Hr).
  destruct (period_delta_defined freq m Hm) as [delta Hd].
  unfold amortization_schedule, amortization_schedule_fuel.
  rewrite Hm. simpl. rewrite Hr. simpl.
  change (0 * m) with 0. unfold pmt. simpl. rewrite Hd. simpl.
  unfold loop_guard. simpl. rewrite andb_false_r. reflexivity.
Qed.

Lemma zero_years_empty_witness :
  amortization_schedule float_pow_cr 1200000 9.5 0 "Monthly" 739000 0 0
    = Some (Ok ([], 0%float, 0)).
Proof.
  apply (zero_years_empty float_pow_cr 1200000 9.5 "Monthly" 739000 0 0 12).
  reflexivity.
Defined.

(** X6. A returned schedule is empty exactly when the principal is not above
    1e-6 or the period count [n] is not positive. *)
Theorem empty_schedule_iff (float_pow : float -> Z -> result float)
    (principal apr : float) (years : Z) (freq : string) (start_date : date)
    (monthly_fee extra_per_period : float) (m : Z) rows bp per :
  periods_per_year freq = Ok m ->
  amortization_schedule float_pow principal apr years freq start_date
    monthly_fee extra_per_period = Some (Ok (rows, bp, per)) ->
  rows = [] <-> ((1e-6 <? principal)%float && (0 <? years * m)) = false.
Proof.
  intros Hm Hs. apply schedule_inv in Hs.
  destruct Hs as (m' & r & b & delta & Hm' & _ & _ & _ & _ & Hper & _ & Hi & Hg).
  rewrite Hm in Hm'. injection Hm' as <-.
  assert (E : (0 <? years * m) = (0 <? 1000 * (years * m))).
  { destruct (0 <? years * m) eqn:E1; symmetry;
      [apply Z.ltb_lt in E1; apply Z.ltb_lt | apply Z.ltb_ge in E1; apply Z.ltb_ge];
      lia. }
  rewrite E. split.
  - intros ->. simpl in Hg, Hper. subst per. exact Hg.
  - intros Hfalse. destruct rows as [|x rows]; [reflexivity|]. exfalso.
    destruct (Hi O) as [H1 H2]; [simpl; lia|]. simpl in H1.
    rewrite H1 in Hfalse. simpl in Hfalse. apply Z.ltb_ge in Hfalse. lia.
Qed.

Lemma empty_schedule_iff_witness :
  ([] : list row) = [] <-> ((1e-6 <? 1e-7)%float && (0 <? 2 * 12)) = false.
Proof.
  apply (empty_schedule_iff float_pow_cr 1e-7 9.5 2 "Monthly" 739000 0 0 12
           [] 0%float 0);
    vm_compute; reflexivity.
Defined.

(** X7. The period numbers of a returned schedule are 1, 2, 3, ... in row
    order, and the returned period count is the number of the last row (0
    for an empty schedule). *)
Theorem period_numbers (float_pow : float -> Z -> result float)
    (principal apr : float) (years : Z) (freq : string) (start_date : date)
    (monthly_fee extra_per_period : float) rows bp per :
  amortization_schedule float_pow principal apr years freq start_date
    monthly_fee extra_per_period = Some (Ok (rows, bp, per)) ->
  (forall i x, nth_error rows i = Some x -> Period x = Z.of_nat i + 1) /\
  (forall x, nth_error rows (pred (List.length rows)) = Some x ->
     Period x = per) /\
  (rows = [] -> per = 0).
Proof.
  intros Hs. apply schedule_inv in Hs.
  destruct Hs as (m & r & b & delta & _ & _ & _ & _ & _ & Hper & Hrows & _).
  assert (Hnth : forall i x, nth_error rows i = Some x ->
            Period x = Z.of_nat i + 1).
  { intros i x Hx.
    assert (Hi : (i < List.length rows)%nat)
      by (apply nth_error_Some; rewrite Hx; discriminate).
    rewrite Hrows, trace_nth in Hx by exact Hi.
    injection Hx as <-. cbn [row_of Period]. lia. }
  split; [exact Hnth|]. split.
  - intros x Hx.
    assert (Hi : (pred (List.length rows) < List.length rows)%nat)
      by (apply nth_error_Some; rewrite Hx; discriminate).
    rewrite (Hnth _ _ Hx). lia.
  - intros ->. exact Hper.
Qed.

Lemma period_numbers_witness :
  exists rows,
    amortization_schedule float_pow_cr 1 0 3 "Yearly" 739000 0 0
      = Some (Ok (rows, 0.33%float, 3)) /\
    map Period rows = [1; 2; 3] /\
    (forall i x, nth_error rows i = Some x -> Period x = Z.of_nat i + 1) /\
    (forall x, nth_error rows (pred (List.length rows)) = Some x ->
       Period x = 3) /\
    (rows = [] -> 3 = 0).
Proof.
  eexists. split; [vm_compute; reflexivity|]. split; [reflexivity|].
  eapply (period_numbers float_pow_cr 1 0 3 "Yearly" 739000 0 0 _ 0.33%float 3).
  vm_compute. reflexivity.
Defined.

Lemma rate_zero (freq : string) (m : Z) :
  periods_per_year freq = Ok m -> rate_per_period 0 m = Ok 0%float.
Proof.
  intros Hm. apply periods_per_year_cases in Hm.
  destruct Hm as [->|[->| ->]]; reflexivity.
Qed.

(** X8. At an annual rate of zero every row of a returned schedule stores
    an interest of 0.0 and a principal equal to its total payment excluding
    fees; the only exception is a row whose period starts with an infinite
    balance, whose interest is a NaN. *)
Theorem zero_rate_rows (float_pow : float -> Z -> result float)
    (principal : float) (years : Z) (freq : string) (start_date : date)
    (monthly_fee extra_per_period : float) rows bp per (i : nat) (x : row) :
  amortization_schedule float_pow principal 0 years freq start_date
    monthly_fee extra_per_period = Some (Ok (rows, bp, per)) ->
  nth_error rows i = Some x ->
  (Interest x = 0%float /\ Principal x = Payment_total_excl_fees x) \/
  Interest x = nan.
Proof.
  intros Hs Hx. pose proof Hs as Hinv. apply schedule_inv in Hinv.
  destruct Hinv as (m & r & b & delta & Hm & Hr & Hb & _).
  rewrite (rate_zero freq m Hm) in Hr. injection Hr as <-.
  destruct (row_of_schedule float_pow _ _ _ _ _ _ _ _ _ _ _ _ _
              Hm (rate_zero freq m Hm) Hb Hs i x Hx) as (d & -> & Hgt).
  cbn [row_of Interest Principal Payment_total_excl_fees].
  set (B := bal_after b 0 extra_per_period i principal) in *.
  unfold principal_component_of, total_paid_of, clamps, principal_due, interest_of.
  destruct (gt_eps_cases B Hgt) as [(mb & eb & Hfin)|Hinf].
  - left. rewrite (mul_zero_r_pos B mb eb Hfin), sub_zero_r.
    split; [exact round2_zero|].
    destruct (B <? b + extra_per_period)%float; [|reflexivity].
    rewrite (add_zero_l_pos B mb eb Hfin). reflexivity.
  - right. rewrite Hinf. vm_compute. reflexivity.
Qed.

Lemma zero_rate_rows_witness :
  exists rows x,
    amortization_schedule float_pow_cr 1 0 3 "Yearly" 739000 0 0
      = Some (Ok (rows, 0.33%float, 3)) /\
    nth_error rows 2 = Some x /\
    ((Interest x = 0%float /\ Principal x = Payment_total_excl_fees x) \/
     Interest x = nan).
Proof.
  do 2 eexists. split; [vm_compute; reflexivity|].
  split; [vm_compute; reflexivity|].
  eapply (zero_rate_rows float_pow_cr 1 3 "Yearly" 739000 0 0 _ 0.33%float 3 2);
    vm_compute; reflexivity.
Defined.

Lemma round2_neg_zero : round2 neg_zero = neg_zero.
Proof. vm_compute. reflexivity. Qed.

(** X9. Without a fee (a fee of 0.0) every row of a returned schedule
    stores a fee of 0.0 and a grand total equal to its total payment
    excluding fees; only when that total is the negative zero is the grand
    total the positive zero. *)
Theorem zero_fee_rows (float_pow : float -> Z -> result float)
    (principal apr : float) (years : Z) (freq : string) (start_date : date)
    (extra_per_period : float) rows bp per (i : nat) (x : row) :
  amortization_schedule float_pow principal apr years freq start_date
    0 extra_per_period = Some (Ok (rows, bp, per)) ->
  nth_error rows i = Some x ->
  Monthly_Fee x = 0%float /\
  (Payment_grand_total x = Payment_total_excl_fees x \/
   (Payment_grand_total x = 0%float /\ Payment_total_excl_fees x = neg_zero)).
Proof.
  intros Hs Hx. pose proof Hs as Hinv. apply schedule_inv in Hinv.
  destruct Hinv as (m & r & b & delta & Hm & Hr & Hb & _).
  destruct (row_of_schedule float_pow _ _ _ _ _ _ _ _ _ _ _ _ _
              Hm Hr Hb Hs i x Hx) as (d & -> & _).
  cbn [row_of Monthly_Fee Payment_grand_total Payment_total_excl_fees].
  split; [exact round2_zero|].
  set (T := total_paid_of b r extra_per_period _).
  destruct (Prim2SF T) as [s|s| |s mt et] eqn:E.
  2-4: left; rewrite add_zero_r; [reflexivity|];
       intros ->; vm_compute in E; discriminate.
  destruct s.
  - right. assert (T = neg_zero) as ->
      by (apply Prim2SF_inj; rewrite E; reflexivity).
    split; vm_compute; reflexivity.
  - left. rewrite add_zero_r; [reflexivity|].
    intros ->. vm_compute in E. discriminate.
Qed.

Lemma zero_fee_rows_witness :
  exists rows per x,
    amortization_schedule float_pow_cr 1000 9.5 2 "Monthly" 739000 0 25
      = Some (Ok (rows, 45.91%float, per)) /\
    nth_error rows 0 = Some x /\
    Monthly_Fee x = 0%float /\
    (Payment_grand_total x = Payment_total_excl_fees x \/
     (Payment_grand_total x = 0%float /\ Payment_total_excl_fees x = neg_zero)).
Proof.
  do 3 eexists. split; [vm_compute; reflexivity|].
  split; [vm_compute; reflexivity|].
  eapply (zero_fee_rows float_pow_cr 1000 9.5 2 "Monthly" 739000 25
            _ 45.91%float _ 0);
    vm_compute; reflexivity.
Defined.

Lemma trace_date_free (b r fee extra : float) (delta : Z) (j : nat) :
  forall p d1 d2 b0,
  map date_free (trace b r fee extra delta j p d1 b0) =
  map date_free (trace b r fee extra delta j p d2 b0).
Proof.
  induction j as [|j IH]; intros p d1 d2 b0; simpl; [reflexivity|].
  f_equal. apply IH.
Qed.

(** The index at which a condition first fails is determined by the
    condition. *)
Lemma first_false_unique (g : nat -> bool) (l1 l2 : nat) :
  (forall i, (i < l1)%nat -> g i = true) -> g l1 = false ->
  (forall i, (i < l2)%nat -> g i = true) -> g l2 = false ->
  l1 = l2.
Proof.
  intros A1 F1 A2 F2.
  destruct (Nat.lt_trichotomy l1 l2) as [H|[H|H]]; [|exact H|].
  - rewrite (A2 l1 H) in F1. discriminate.
  - rewrite (A1 l2 H) in F2. discriminate.
Qed.

(** X10. The schedule does not depend on the calendar: two inputs that
    differ only in the start date and both return a schedule return the
    same base payment, the same period count and rows that agree on every
    field but the date, the dates being shifted by the difference of the
    start dates. *)
Theorem start_date_frame (float_pow : float -> Z -> result float)
    (principal apr : float) (years : Z) (freq : string)
    (start1 start2 : date) (monthly_fee extra_per_period : float)
    rows1 bp1 per1 rows2 bp2 per2 :
  amortization_schedule float_pow principal apr years freq start1
    monthly_fee extra_per_period = Some (Ok (rows1, bp1, per1)) ->
  amortization_schedule float_pow principal apr years freq start2
    monthly_fee extra_per_period = Some (Ok (rows2, bp2, per2)) ->
  map date_free rows1 = map date_free rows2 /\
  bp1 = bp2 /\ per1 = per2 /\
  (forall i x1 x2, nth_error rows1 i = Some x1 -> nth_error rows2 i = Some x2 ->
     Date x2 - Date x1 = start2 - start1).
Proof.
  intros H1 H2. apply schedule_inv in H1, H2.
  destruct H1 as (m & r & b & delta & Hm & Hr & Hb & Hd & Hbp1 & Hper1 & Hrows1 & Hi1 & Hg1).
  destruct H2 as (m' & r' & b' & delta' & Hm' & Hr' & Hb' & Hd' & Hbp2 & Hper2 & Hrows2 & Hi2 & Hg2).
  rewrite Hm in Hm'. injection Hm' as <-.
  rewrite Hr in Hr'. injection Hr' as <-.
  rewrite Hb in Hb'. injection Hb' as <-.
  rewrite Hd in Hd'. injection Hd' as <-.
  set (g := fun i => (1e-6 <? bal_after b r extra_per_period i principal)%float
                     && (Z.of_nat i <? 1000 * (years * m))).
  assert (Hlen : List.length rows1 = List.length rows2).
  { apply (first_false_unique g).
    - intros i Hlt. destruct (Hi1 i Hlt) as [A B]. unfold g. rewrite A. simpl.
      apply Z.ltb_lt. exact B.
    - unfold g. rewrite <- Hper1. exact Hg1.
    - intros i Hlt. destruct (Hi2 i Hlt) as [A B]. unfold g. rewrite A. simpl.
      apply Z.ltb_lt. exact B.
    - unfold g. rewrite <- Hper2. exact Hg2. }
  split; [|split; [congruence|split; [congruence|]]].
  - rewrite Hrows1, Hrows2, Hlen. apply trace_date_free.
  - intros i x1 x2 Hx1 Hx2.
    assert (L1 : (i < List.length rows1)%nat)
      by (apply nth_error_Some; rewrite Hx1; discriminate).
    assert (L2 : (i < List.length rows2)%nat) by lia.
    rewrite Hrows1, trace_nth in Hx1 by exact L1.
    rewrite Hrows2, trace_nth in Hx2 by exact L2.
    injection Hx1 as <-. injection Hx2 as <-. cbn [row_of Date]. lia.
Qed.

Lemma start_date_frame_witness :
  exists rows1 rows2,
    amortization_schedule float_pow_cr 1 0 3 "Yearly" 739000 0 0
      = Some (Ok (rows1, 0.33%float, 3)) /\
    amortization_schedule float_pow_cr 1 0 3 "Yearly" 700000 0 0
      = Some (Ok (rows2, 0.33%float, 3)) /\
    map date_free rows1 = map date_free rows2 /\
    0.33%float = 0.33%float /\ 3 = 3 /\
    (forall i x1 x2, nth_error rows1 i = Some x1 -> nth_error rows2 i = Some x2 ->
       Date x2 - Date x1 = 700000 - 739000).
Proof.
  do 2 eexists. split; [vm_compute; reflexivity|].
  split; [vm_compute; reflexivity|].
  eapply (start_date_frame float_pow_cr 1 0 3 "Yearly" 739000 700000 0 0);
    vm_compute; reflexivity.
Defined.

Lemma add_zero_not_neg_zero (x : float) : (x + 0)%float <> neg_zero.
Proof.
  intros H. apply (f_equal Prim2SF) in H. rewrite add_spec, Prim2SF_zero in H.
  destruct (Prim2SF x) as [s|s| |s m e]; try destruct s; vm_compute in H;
    discriminate.
Qed.

(** X11. Without upfront fees the GST checkbox changes nothing: the page
    computes the same principal and so the same outcome with the box
    ticked or not. *)
Theorem gst_without_fees (float_pow : float -> Z -> result float)
    (loan_amount rate_pct : float) (years : Z)
    (compounding : string) (start_date : date)
    (include_insurance : bool) (insurance_amt : float)
    (consider_part_prepay : bool) (extra_payment : float) :
  principal_base loan_amount 0 true = principal_base loan_amount 0 false /\
  page_schedule float_pow loan_amount 0 rate_pct years compounding start_date
    include_insurance insurance_amt consider_part_prepay extra_payment true
  = page_schedule float_pow loan_amount 0 rate_pct years compounding start_date
      include_insurance insurance_amt consider_part_prepay extra_payment false.
Proof.
  assert (E : principal_base loan_amount 0 true = principal_base loan_amount 0 false).
  { unfold principal_base.
    replace (0.18 * 0)%float with 0%float by reflexivity.
    apply add_zero_r, add_zero_not_neg_zero. }
  split; [exact E|]. unfold page_schedule. rewrite E. reflexivity.
Qed.

(** X12. The power is computed only for a term of at least one period at a
    periodic rate of at least 1e-9 in absolute value: below that, and for an
    empty term, the whole result of [amortization_schedule] is the same
    whatever the power function does, even if it raises. *)
Theorem power_unused_at_small_rate (pow1 pow2 : float -> Z -> result float)
    (principal apr : float) (years : Z) (freq : string) (start_date : date)
    (monthly_fee extra_per_period : float) :
  (forall m r, periods_per_year freq = Ok m -> rate_per_period apr m = Ok r ->
     years * m = 0 \/ (abs r <? 1e-9)%float = true) ->
  amortization_schedule pow1 principal apr years freq start_date
    monthly_fee extra_per_period
  = amortization_schedule pow2 principal apr years freq start_date
      monthly_fee extra_per_period.
Proof.
  intros H. unfold amortization_schedule, amortization_schedule_fuel.
  destruct (periods_per_year freq) as [m|e] eqn:Hm; [|reflexivity].
  cbn [bind].
  destruct (rate_per_period apr m) as [r|e] eqn:Hr; [|reflexivity].
  cbn [bind].
  assert (Hp : pmt pow1 r (years * m) principal = pmt pow2 r (years * m) principal).
  { unfold pmt. destruct (H m r eq_refl Hr) as [Hn|Hs].
    - rewrite Hn. reflexivity.
    - rewrite Hs. reflexivity. }
  rewrite Hp. reflexivity.
Qed.

Lemma power_unused_at_small_rate_witness :
  amortization_schedule float_pow_cr 1000 0 1 "Monthly" 739000 0 0
  = amortization_schedule (fun _ _ => Raise OverflowError)
      1000 0 1 "Monthly" 739000 0 0.
Proof.
  apply (power_unused_at_small_rate float_pow_cr (fun _ _ => Raise OverflowError)
           1000 0 1 "Monthly" 739000 0 0).
  intros m r Hm Hr. right.
  vm_compute in Hm. injection Hm as <-.
  vm_compute in Hr. injection Hr as <-.
  vm_compute. reflexivity.
Defined.

(** ** The chat page: replies, history and display *)

Import Chat.

Lemma append_nil_r (s : string) : (s ++ "")%string = s.
Proof. induction s as [|a s IH]; simpl; [reflexivity|]. rewrite IH. reflexivity. Qed.

Lemma append_assoc (a b c : string) :
  ((a ++ b) ++ c)%string = (a ++ (b ++ c))%string.
Proof. induction a as [|x a IH]; simpl; [reflexivity|]. rewrite IH. reflexivity. Qed.

Lemma truthy_false (s : string) : truthy s = false -> s = ""%string.
Proof.
  unfold truthy. intros H. apply negb_false_iff in H.
  apply String.eqb_eq in H. exact H.
Qed.

Lemma add_choices_reply (choices : list choice) (acc : string * list string) :
  fst (fold_left add_choice choices acc)
  = (fst acc ++ join (contents_of_choices choices))%string.
Proof.
  revert acc. induction choices as [|c choices IH]; intros acc; simpl.
  - rewrite append_nil_r. reflexivity.
  - rewrite IH. destruct c as [s|]; simpl; [|reflexivity].
    destruct (truthy s) eqn:E; simpl.
    + rewrite append_assoc. reflexivity.
    + apply truthy_false in E. subst s. reflexivity.
Qed.

Lemma join_app (l1 l2 : list string) :
  join (l1 ++ l2) = (join l1 ++ join l2)%string.
Proof.
  induction l1 as [|a l1 IH]; simpl; [reflexivity|].
  rewrite IH, append_assoc. reflexivity.
Qed.

Lemma accumulate_reply_from (chunks : list chunk) (acc : string * list string) :
  fst (fold_left add_chunk chunks acc)
  = (fst acc ++ join (all_contents chunks))%string.
Proof.
  revert acc. induction chunks as [|ch chunks IH]; intros acc; simpl.
  - rewrite append_nil_r. reflexivity.
  - rewrite IH. destruct ch as [choices|]; simpl; [|reflexivity].
    rewrite add_choices_reply, join_app, append_assoc. reflexivity.
Qed.

Lemma prefix_nil (s : string) : String.prefix "" s = true.
Proof. destruct s; reflexivity. Qed.

Lemma prefix_refl (s : string) : String.prefix s s = true.
Proof.
  induction s as [|a s IH]; simpl; [reflexivity|].
  destruct (Ascii.ascii_dec a a); [exact IH|contradiction].
Qed.

Lemma prefix_app (p s t : string) :
  String.prefix p s = true -> String.prefix p (s ++ t) = true.
Proof.
  revert s. induction p as [|a p IH]; intros s; [intros _; apply prefix_nil|].
  destruct s as [|b s]; simpl; [discriminate|].
  destruct (Ascii.ascii_dec a b); [apply IH|discriminate].
Qed.


Lemma add_choice_shown (acc : string * list string) (c : choice) :
  shown_ok acc -> shown_ok (add_choice acc c).
Proof.
  intros (HF & Hnil & Hlast). destruct c as [s|]; simpl; [|repeat split; auto].
  destruct (truthy s) eqn:E; [|repeat split; auto].
  assert (Hne : (fst acc ++ s)%string <> ""%string).
  { intros H. destruct (fst acc); simpl in H; [|discriminate].
    subst s. discriminate. }
  assert (Ht : truthy (fst acc ++ s) = true).
  { unfold truthy. apply negb_true_iff. apply String.eqb_neq. exact Hne. }
  split; [|split]; simpl.
  - apply Forall_app. split.
    + eapply Forall_impl; [|exact HF]. intros t (p & -> & Hp & Hpre).
      exists p. split; [reflexivity|]. split; [exact Hp|].
      apply prefix_app. exact Hpre.
    + constructor; [|constructor].
      exists (fst acc ++ s)%string. split; [reflexivity|]. split; [exact Ht|].
      apply prefix_refl.
  - intros H. contradiction.
  - intros _. apply last_last.
Qed.

Lemma add_chunk_shown (acc : string * list string) (ch : chunk) :
  shown_ok acc -> shown_ok (add_chunk acc ch).
Proof.
  destruct ch as [choices|]; simpl; [|auto].
  revert acc. induction choices as [|c choices IH]; intros acc H; simpl; [exact H|].
  apply IH, add_choice_shown, H.
Qed.

Lemma accumulate_shown (chunks : list chunk) : shown_ok (accumulate chunks).
Proof.
  unfold accumulate.
  assert (H0 : shown_ok (""%string, [])).
  { split; [constructor|]. split; [reflexivity|]. intros H. contradiction. }
  revert H0. generalize (""%string, @nil string).
  induction chunks as [|ch chunks IH]; intros acc H; simpl; [exact H|].
  apply IH, add_chunk_shown, H.
Qed.

Lemma accumulate_reply (chunks : list chunk) :
  fst (accumulate chunks) = join (all_contents chunks).
Proof. unfold accumulate. rewrite accumulate_reply_from. reflexivity. Qed.

(** X13. The reply of a stream that ends normally is the concatenation of the
    contents of all choices of all chunks, in order; each text shown in the
    placeholder is the marker followed by a non-empty beginning of that
    reply, the last one by the whole reply; nothing is shown for an empty
    reply. *)
Theorem stream_reply (key : string) (api : list message -> response)
    (msgs : list message) (chunks : list chunk) :
  truthy key = true ->
  api msgs = Yields chunks false ->
  exists shown,
    stream_openai_response true (Some key) api msgs
      = Some (join (all_contents chunks), shown) /\
    shown_ok (join (all_contents chunks), shown).
Proof.
  intros Hk Ha. unfold stream_openai_response. rewrite Hk, Ha.
  pose proof (accumulate_reply chunks) as Hr.
  pose proof (accumulate_shown chunks) as Hs.
  destruct (accumulate chunks) as [full shown]. simpl in Hr. subst full.
  exists shown. split; [reflexivity | exact Hs].
Qed.

(** X14. A missing or empty key, a call that raises and a stream that breaks
    off all give the empty reply: [on_send] then keeps the question in the
    history and in [user_inputs], adds no answer, empties the text box and
    leaves [is_streaming] off. *)
Theorem failed_reply_keeps_question (strip : string -> string)
    (openai_key : option string) (api : list message -> response)
    (st : session) :
  truthy (strip (input_text st)) = true ->
  let asked := messages st ++
               [ {| role := "user"; content := strip (input_text st) |} ] in
  (match openai_key with Some key => truthy key | None => false end = false \/
   api asked = CreateRaises \/
   exists chunks, api asked = Yields chunks true) ->
  on_send strip true openai_key api st
    = ({| messages := asked; generated := generated st;
          user_inputs := user_inputs st ++ [strip (input_text st)];
          is_streaming := false; input_text := ""%string |}, true).
Proof.
  intros Hu asked Hfail. unfold on_send, stream_openai_response.
  rewrite Hu. fold asked.
  destruct openai_key as [key|]; [destruct (truthy key) eqn:Hk|]; try reflexivity.
  destruct Hfail as [H|[H|(chunks & H)]]; [discriminate| |]; rewrite H.
  - reflexivity.
  - destruct (accumulate chunks) as [full shown]. reflexivity.
Qed.

Lemma failed_reply_keeps_question_witness :
  on_send (fun s => s) true None (fun _ => CreateRaises)
    {| messages := [system_message]; generated := []; user_inputs := [];
       is_streaming := false; input_text := "hi"%string |}
    = ({| messages := [system_message; {| role := "user"; content := "hi" |}];
          generated := []; user_inputs := ["hi"%string];
          is_streaming := false; input_text := ""%string |}, true).
Proof.
  apply (failed_reply_keeps_question (fun s => s) None (fun _ => CreateRaises)
           {| messages := [system_message]; generated := []; user_inputs := [];
              is_streaming := false; input_text := "hi"%string |}).
  - reflexivity.
  - left. reflexivity.
Defined.

Lemma stream_reply_witness :
  exists shown,
    stream_openai_response true (Some "k"%string)
      (fun _ => Yields [Some [Some "Hel"%string; None]; None;
                        Some [Some ""%string; Some "lo"%string]] false)
      [system_message]
      = Some ("Hello"%string, shown) /\
    shown_ok ("Hello"%string, shown).
Proof.
  apply (stream_reply "k"%string
           (fun _ => Yields [Some [Some "Hel"%string; None]; None;
                             Some [Some ""%string; Some "lo"%string]] false)
           [system_message]
           [Some [Some "Hel"%string; None]; None;
            Some [Some ""%string; Some "lo"%string]]).
  - reflexivity.
  - reflexivity.
Defined.

Lemma contents_of_app (r : string) (l1 l2 : list message) :
  contents_of r (l1 ++ l2) = contents_of r l1 ++ contents_of r l2.
Proof. unfold contents_of. rewrite filter_app, map_app. reflexivity. Qed.

Lemma turns_ask (e : bool) (l : list message) (c : string) :
  turns e l = true -> truthy c = true ->
  turns e (l ++ [ {| role := "user"; content := c |} ]) = true.
Proof.
  intros H Hc. revert e H. induction l as [|m l IH]; intros e H; simpl in *.
  - rewrite Hc. reflexivity.
  - destruct (String.eqb (role m) "user").
    + apply andb_true_iff in H. destruct H as [H1 H2].
      rewrite H1, (IH _ H2). reflexivity.
    + destruct (String.eqb (role m) "assistant"); [|discriminate].
      apply andb_true_iff in H. destruct H as [H1 H2].
      rewrite H1, (IH _ H2). reflexivity.
Qed.

Lemma turns_answer (e : bool) (l : list message) (c r : string) :
  turns e (l ++ [ {| role := "user"; content := c |} ]) = true ->
  truthy r = true ->
  turns e ((l ++ [ {| role := "user"; content := c |} ])
           ++ [ {| role := "assistant"; content := r |} ]) = true.
Proof.
  intros H Hr. revert e H. induction l as [|m l IH]; intros e H; simpl in *.
  - rewrite Hr. rewrite andb_true_r in *. exact H.
  - destruct (String.eqb (role m) "user").
    + apply andb_true_iff in H. destruct H as [H1 H2].
      rewrite H1, (IH _ H2). reflexivity.
    + destruct (String.eqb (role m) "assistant"); [|discriminate].
      apply andb_true_iff in H. destruct H as [H1 H2].
      rewrite H1, (IH _ H2). reflexivity.
Qed.

Lemma turns_counts (e : bool) (l : list message) :
  turns e l = true ->
  (List.length (contents_of "assistant" l)
   <= List.length (contents_of "user" l) + (if e then 1 else 0))%nat /\
  (List.length l
   = List.length (contents_of "user" l)
     + List.length (contents_of "assistant" l))%nat.
Proof.
  revert e. induction l as [|m l IH]; intros e H.
  - simpl. split; lia.
  - unfold contents_of in *. simpl in *.
    destruct (String.eqb (role m) "user") eqn:Eu.
    + apply andb_true_iff in H. destruct H as [_ H2].
      apply String.eqb_eq in Eu. rewrite Eu. simpl.
      destruct (IH _ H2) as [I1 I2]. split; destruct e; lia.
    + destruct (String.eqb (role m) "assistant") eqn:Ea; [|discriminate].
      apply andb_true_iff in H. destruct H as [H1 H2].
      apply andb_true_iff in H1. destruct H1 as [H1 _]. subst e.
      simpl. destruct (IH _ H2) as [I1 I2]. split; lia.
Qed.

Lemma turns_render (e : bool) (l : list message) :
  turns e l = true -> render l = map line l.
Proof.
  revert e. induction l as [|m l IH]; intros e H; simpl in *; [reflexivity|].
  unfold line.
  destruct (String.eqb (role m) "user") eqn:Eu.
  - apply andb_true_iff in H. destruct H as [_ H2].
    apply String.eqb_eq in Eu. rewrite Eu. simpl. rewrite (IH _ H2). reflexivity.
  - destruct (String.eqb (role m) "assistant") eqn:Ea; [|discriminate].
    apply andb_true_iff in H. destruct H as [_ H2].
    apply String.eqb_eq in Ea. rewrite Ea. simpl. rewrite (IH _ H2). reflexivity.
Qed.

Lemma initial_consistent : consistent initial_session.
Proof. exists []. repeat split. Qed.

Lemma clear_consistent (st : session) : consistent (clear_chat st).
Proof. exists []. repeat split. Qed.

Lemma on_send_consistent (strip : string -> string) (installed : bool)
    (key : option string) (api : list message -> response) (st : session) :
  consistent st -> consistent (fst (on_send strip installed key api st)).
Proof.
  intros (rest & Hm & Ht & Hu & Hg). unfold on_send.
  destruct (truthy (strip (input_text st))) eqn:Hin;
    [|exists rest; repeat split; assumption].
  set (q := {| role := "user"; content := strip (input_text st) |}).
  assert (Hq : consistent
                 {| messages := messages st ++ [q]; generated := generated st;
                    user_inputs := user_inputs st ++ [strip (input_text st)];
                    is_streaming := false; input_text := ""%string |}).
  { exists (rest ++ [q]). simpl. rewrite Hm. split; [reflexivity|].
    split; [apply turns_ask; assumption|].
    rewrite Hm in Hu, Hg. rewrite Hu, Hg.
    change (system_message :: rest ++ [q]) with ((system_message :: rest) ++ [q]).
    rewrite !contents_of_app. split; [reflexivity|].
    unfold contents_of at 3. simpl. rewrite app_nil_r. reflexivity. }
  destruct (stream_openai_response installed key api (messages st ++ [q]))
    as [[reply shown]|].
  - destruct (truthy reply) eqn:Hr; [|exact Hq].
    destruct Hq as (rest' & Hm' & Ht' & Hu' & Hg'). simpl in *.
    set (a := {| role := "assistant"; content := reply |}).
    exists ((rest ++ [q]) ++ [a]). simpl.
    split; [rewrite Hm; reflexivity|]. split.
    + apply turns_answer; [|exact Hr]. apply turns_ask; assumption.
    + rewrite !(contents_of_app _ (messages st ++ [q]) [a]), <- Hu', <- Hg'.
      split; [|reflexivity].
      unfold contents_of at 1. simpl. rewrite app_nil_r. reflexivity.
  - destruct Hq as (rest' & Hm' & Ht' & Hu' & Hg'). exists rest'. simpl in *.
    repeat split; assumption.
Qed.

Lemma step_consistent (strip : string -> string) (st : session) (ev : event) :
  consistent st -> consistent (step strip st ev).
Proof.
  intros H. destruct ev as [text installed key api|]; simpl.
  - apply on_send_consistent. destruct H as (rest & Hm & Ht & Hu & Hg).
    exists rest. repeat split; assumption.
  - apply clear_consistent.
Qed.

Lemma run_consistent (strip : string -> string) (evs : list event) :
  consistent (run strip evs).
Proof.
  unfold run. generalize initial_consistent. generalize initial_session.
  induction evs as [|ev evs IH]; intros st H; simpl; [exact H|].
  apply IH, step_consistent, H.
Qed.

(** X15. Whatever the user types and clicks and whatever the API answers, the
    history starts with the system message, after which questions and answers
    take turns: every message is a non-empty question or a non-empty answer,
    and an answer follows a question.  [user_inputs] and [generated] hold the
    contents of the questions and of the answers, in order, so there are never
    more answers than questions. *)
Theorem history_invariant (strip : string -> string) (evs : list event) :
  let st := run strip evs in
  (exists rest, messages st = system_message :: rest /\ turns false rest = true) /\
  user_inputs st = contents_of "user" (messages st) /\
  generated st = contents_of "assistant" (messages st) /\
  (List.length (generated st) <= List.length (user_inputs st))%nat.
Proof.
  intros st. destruct (run_consistent strip evs) as (rest & Hm & Ht & Hu & Hg).
  fold st in Hm, Hu, Hg.
  split; [exists rest; split; assumption|].
  split; [exact Hu|]. split; [exact Hg|].
  rewrite Hu, Hg, Hm.
  destruct (turns_counts false rest Ht) as [H _].
  unfold contents_of in *. simpl. lia.
Qed.

(** X16. The chat display shows one line for every message after the system
    message, in the order of the history: as many lines as there are
    questions and answers recorded. *)
Theorem display_follows_history (strip : string -> string) (evs : list event) :
  let st := run strip evs in
  render (messages st) = map line (tl (messages st)) /\
  List.length (render (messages st))
    = (List.length (user_inputs st) + List.length (generated st))%nat.
Proof.
  intros st. destruct (run_consistent strip evs) as (rest & Hm & Ht & Hu & Hg).
  fold st in Hm, Hu, Hg.
  assert (Hr : render (messages st) = map line rest).
  { rewrite Hm. simpl. apply (turns_render false). exact Ht. }
  split; [rewrite Hr, Hm; reflexivity|].
  rewrite Hr, length_map, Hu, Hg, Hm.
  destruct (turns_counts false rest Ht) as [_ H].
  unfold contents_of in *. simpl. exact H.
Qed.

Lemma on_send_streaming (strip : string -> string) (key : option string)
    (api : list message -> response) (st : session) :
  is_streaming st = false ->
  is_streaming (fst (on_send strip true key api st)) = false.
Proof.
  intros H. unfold on_send.
  destruct (truthy (strip (input_text st))); [|exact H].
  destruct (stream_openai_response true key api _) as [[reply shown]|] eqn:E.
  - destruct (truthy reply); reflexivity.
  - unfold stream_openai_response in E.
    destruct key as [k|]; [destruct (truthy k)|]; try discriminate.
    destruct (api _); [discriminate|].
    destruct (accumulate chunks). destruct then_raises; discriminate.
Qed.

(** X17. With the [openai] package installed [is_streaming] is off after every
    run of the page: [on_send] switches it off again on each of its ways
    out, the failed ones included. *)
Theorem streaming_flag_off (strip : string -> string) (evs : list event) :
  Forall (fun ev => match ev with
                    | Send _ installed _ _ => installed = true
                    | Clear => True
                    end) evs ->
  is_streaming (run strip evs) = false.
Proof.
  unfold run. assert (H0 : is_streaming initial_session = false) by reflexivity.
  revert H0. generalize initial_session.
  induction evs as [|ev evs IH]; intros st H0 HF; simpl; [exact H0|].
  inversion HF as [|? ? Hev HF']; subst. apply IH; [|exact HF'].
  destruct ev as [text installed key api|]; simpl; [|exact H0].
  subst installed. apply on_send_streaming. exact H0.
Qed.

Lemma streaming_flag_off_witness :
  is_streaming
    (run (fun s => s)
       [Send "hi" true (Some "k"%string)
          (fun _ => Yields [Some [Some "yo"%string]] true);
        Clear;
        Send "again" true None (fun _ => CreateRaises)]) = false.
Proof.
  apply (streaming_flag_off (fun s => s)).
  repeat constructor.
Defined.
